(** * copilot-os: prompt evaluator, agent registry, CLI invoker and chain
    orchestrator

    A shallow embedding of the Go packages [internal/prompt],
    [internal/agents], [internal/cli], [internal/orchestrator] and
    [internal/config], and the properties of the orchestration core, of
    the discovery of agent files and of the configuration that follow
    from the code.

    Conventions of the embedding.
    - A Go [string] is a byte string, here Stdlib's [string] (a list of
      [ascii] bytes).  The functions of Go's [strings] and [unicode]
      packages are modelled on bytes below 128, where they act byte by
      byte; every other byte is an ordinary byte that is neither a space,
      nor a letter, nor a word character.
    - A [float64] is a primitive binary64 float; [+], [-] and the
      comparisons are those of IEEE 754, as in Go.
    - A Go map that is only ranged over is the list of its entries together
      with the order in which [range] visits them; the language leaves
      that order unspecified, so it is a parameter of the functions that
      range.
    - Calls to the outside world (the external [copilot] command, the
      cancellation of a [context.Context], the logger) are explicit state
      passing over an abstract world, with a trace of the events.  The
      agents directory is the list of its entries with what reading each
      gives, and the environment is the function [os.Getenv]. *)

From Stdlib Require Import String Ascii ZArith QArith Qabs Qminmax Floats Lia.
From stdpp Require Import base gmap sets list strings sorting.

Set Warnings "-inexact-float".

(* ===================================================================== *)
(** * Go's [strings] package on byte strings *)
(* ===================================================================== *)

Module GoStrings.

(** [unicode.IsSpace] below 128: '\t', '\n', '\v', '\f', '\r', ' '. *)
Definition isSpace (c : ascii) : bool :=
  let n := nat_of_ascii c in
  ((9 <=? n)%nat && (n <=? 13)%nat) || (n =? 32)%nat.

(** [unicode.ToLower] below 128. *)
Definition toLowerByte (c : ascii) : ascii :=
  let n := nat_of_ascii c in
  if ((65 <=? n)%nat && (n <=? 90)%nat) then ascii_of_nat (n + 32) else c.

(** [strings.ToLower]. *)
Fixpoint ToLower (s : string) : string :=
  match s with
  | EmptyString => EmptyString
  | String c s' => String (toLowerByte c) (ToLower s')
  end.

(** [len(s)]: the number of bytes. *)
Definition len (s : string) : nat := String.length s.

(** [strings.HasPrefix(s, prefix)]. *)
Fixpoint HasPrefix (s prefix : string) {struct prefix} : bool :=
  match prefix with
  | EmptyString => true
  | String a prefix' =>
      match s with
      | EmptyString => false
      | String b s' => Ascii.eqb a b && HasPrefix s' prefix'
      end
  end.

(** [strings.Contains(s, substr)]. *)
Fixpoint Contains (s substr : string) : bool :=
  HasPrefix s substr ||
  match s with
  | EmptyString => false
  | String _ s' => Contains s' substr
  end.

Fixpoint trimLeft (s : string) : string :=
  match s with
  | EmptyString => EmptyString
  | String c s' => if isSpace c then trimLeft s' else s
  end.

Fixpoint trimRight (s : string) : string :=
  match s with
  | EmptyString => EmptyString
  | String c s' =>
      match trimRight s' with
      | EmptyString => if isSpace c then EmptyString else String c EmptyString
      | t => String c t
      end
  end.

(** [strings.TrimSpace]: leading and trailing white space removed. *)
Definition TrimSpace (s : string) : string := trimRight (trimLeft s).

(** [strings.Fields]: the maximal runs of non-space bytes, in order. *)
Fixpoint Fields (s : string) : list string :=
  match s with
  | EmptyString => []
  | String c s' =>
      if isSpace c then Fields s'
      else
        match s' with
        | EmptyString => [String c EmptyString]
        | String c' _ =>
            if isSpace c' then String c EmptyString :: Fields s'
            else
              match Fields s' with
              | w :: ws => String c w :: ws
              | [] => [String c EmptyString]
              end
        end
  end.

(** [strings.Join(elems, sep)]. *)
Fixpoint Join (elems : list string) (sep : string) : string :=
  match elems with
  | [] => EmptyString
  | [x] => x
  | x :: rest => x +:+ sep +:+ Join rest sep
  end.

(** [strings.Split(s, sep)] for a one-byte separator. *)
Fixpoint splitByte (sep : ascii) (s : string) : list string :=
  match s with
  | EmptyString => [EmptyString]
  | String c s' =>
      if Ascii.eqb c sep then EmptyString :: splitByte sep s'
      else
        match splitByte sep s' with
        | w :: ws => String c w :: ws
        | [] => [String c EmptyString]
        end
  end.

(** [%d] of [fmt.Sprintf] for a non-negative int. *)
Definition digit (n : nat) : ascii := ascii_of_nat (48 + n).

Fixpoint itoa_fuel (fuel n : nat) (acc : string) : string :=
  match fuel with
  | O => acc
  | S fuel' =>
      let acc' := String (digit (n mod 10)) acc in
      if (n <? 10)%nat then acc' else itoa_fuel fuel' (n / 10) acc'
  end.

Definition itoa (n : nat) : string := itoa_fuel (S n) n EmptyString.

(** [strings.HasSuffix(s, suffix)]: some tail of [s] is [suffix]. *)
Fixpoint HasSuffix (s suffix : string) : bool :=
  String.eqb s suffix ||
  match s with
  | EmptyString => false
  | String _ s' => HasSuffix s' suffix
  end.

(** [s[n:]] and [s[:n]], for [n] up to [len(s)]. *)
Fixpoint dropBytes (n : nat) (s : string) : string :=
  match n, s with
  | S n', String _ s' => dropBytes n' s'
  | _, _ => s
  end.

Fixpoint takeBytes (n : nat) (s : string) : string :=
  match n, s with
  | S n', String c s' => String c (takeBytes n' s')
  | _, _ => EmptyString
  end.

(** [strings.TrimPrefix] and [strings.TrimSuffix]. *)
Definition TrimPrefix (s prefix : string) : string :=
  if HasPrefix s prefix then dropBytes (len prefix) s else s.

Definition TrimSuffix (s suffix : string) : string :=
  if HasSuffix s suffix then takeBytes (len s - len suffix) s else s.

(** [strings.Trim(s, cutset)] for a cutset of bytes below 128. *)
Definition inCutset (cutset : string) (c : ascii) : bool :=
  existsb (Ascii.eqb c) (list_ascii_of_string cutset).

Fixpoint trimLeftSet (cutset s : string) : string :=
  match s with
  | EmptyString => EmptyString
  | String c s' => if inCutset cutset c then trimLeftSet cutset s' else s
  end.

Fixpoint trimRightSet (cutset s : string) : string :=
  match s with
  | EmptyString => EmptyString
  | String c s' =>
      match trimRightSet cutset s' with
      | EmptyString =>
          if inCutset cutset c then EmptyString else String c EmptyString
      | t => String c t
      end
  end.

Definition Trim (s cutset : string) : string :=
  trimRightSet cutset (trimLeftSet cutset s).

End GoStrings.

(* ===================================================================== *)
(** * The fragment of Go's [regexp] the program uses *)
(* ===================================================================== *)

Module Regexp.
Import GoStrings.

(** Syntax: literals, alternation, concatenation, [c+] for a class of
    bytes, and the ASCII word boundary [\b]. *)
Inductive regex : Type :=
| Lit (w : string)
| Alt (r1 r2 : regex)
| Cat (r1 r2 : regex)
| Plus (cls : ascii -> bool)
| WordBoundary.

(** [\w] of RE2: [0-9A-Za-z_]. *)
Definition isWordByte (c : ascii) : bool :=
  let n := nat_of_ascii c in
  ((48 <=? n)%nat && (n <=? 57)%nat) || ((65 <=? n)%nat && (n <=? 90)%nat)
  || ((97 <=? n)%nat && (n <=? 122)%nat) || (n =? 95)%nat.

(** [\s] of RE2: [\t\n\f\r ] (no vertical tab). *)
Definition isReSpace (c : ascii) : bool :=
  let n := nat_of_ascii c in
  (n =? 9)%nat || (n =? 10)%nat || (n =? 12)%nat || (n =? 13)%nat || (n =? 32)%nat.

Definition wordOpt (c : option ascii) : bool :=
  match c with Some c => isWordByte c | None => false end.

Definition next (s : string) : option ascii :=
  match s with EmptyString => None | String c _ => Some c end.

(** Consume the literal [w] at the head of [s]: the byte before the new
    position and the rest of the text. *)
Fixpoint eat (w : string) (prev : option ascii) (s : string)
  : option (option ascii * string) :=
  match w with
  | EmptyString => Some (prev, s)
  | String a w' =>
      match s with
      | EmptyString => None
      | String b s' => if Ascii.eqb a b then eat w' (Some b) s' else None
      end
  end.

(** One or more bytes of the class, then the continuation. *)
Fixpoint plus (cls : ascii -> bool) (s : string)
  (k : option ascii -> string -> bool) : bool :=
  match s with
  | EmptyString => false
  | String c s' => cls c && (k (Some c) s' || plus cls s' k)
  end.

(** [matchHere r prev s k]: some match of [r] starts at the head of [s]
    (the byte before it being [prev]) and the continuation [k] accepts
    what follows it. *)
Fixpoint matchHere (r : regex) (prev : option ascii) (s : string)
  (k : option ascii -> string -> bool) : bool :=
  match r with
  | Lit w =>
      match eat w prev s with
      | Some (prev', s') => k prev' s'
      | None => false
      end
  | Alt r1 r2 => matchHere r1 prev s k || matchHere r2 prev s k
  | Cat r1 r2 => matchHere r1 prev s (fun prev' s' => matchHere r2 prev' s' k)
  | Plus cls => plus cls s k
  | WordBoundary =>
      if xorb (wordOpt prev) (wordOpt (next s)) then k prev s else false
  end.

Fixpoint search (r : regex) (prev : option ascii) (s : string) : bool :=
  matchHere r prev s (fun _ _ => true) ||
  match s with
  | EmptyString => false
  | String c s' => search r (Some c) s'
  end.

(** [Regexp.MatchString]: the text contains a match of the pattern. *)
Definition MatchString (r : regex) (s : string) : bool := search r None s.

(** [a|b|c] *)
Fixpoint alternation (ws : list string) : regex :=
  match ws with
  | [] => Lit EmptyString
  | [w] => Lit w
  | w :: ws' => Alt (Lit w) (alternation ws')
  end.

(** [regexp.MustCompile] on a pattern that is an alternation of literals
    free of metacharacters, such as ["doc|readme|guide"]. *)
Definition MustCompile (pattern : string) : regex :=
  alternation (splitByte "|"%char pattern).

End Regexp.

(* ===================================================================== *)
(** * Package [prompt]: the clarity evaluator *)
(* ===================================================================== *)

Module Prompt.
Import GoStrings Regexp.

Record EvaluationResult : Type := mkEvaluationResult {
  IsClear : bool;
  Feedback : string;
  SuggestedRefinement : string;
  Confidence : float;
  DetectedIssues : list string;
  RefinedPrompt : string;
  SuggestedAgentKeywords : list string
}.

Record Evaluator : Type := mkEvaluator {
  vaguenessPatterns : list regex;
  minimumLength : nat;
  minimumWords : nat;
  confidenceThreshold : float
}.

(** [\b(thing|stuff|something)\b] *)
Definition genericNounPattern : regex :=
  Cat WordBoundary
    (Cat (alternation ["thing"; "stuff"; "something"]) WordBoundary).

(** [\b(check|look|review|fix)\s+(it|this|that)\b] *)
Definition danglingReferencePattern : regex :=
  Cat WordBoundary
    (Cat (alternation ["check"; "look"; "review"; "fix"])
       (Cat (Plus isReSpace)
          (Cat (alternation ["it"; "this"; "that"]) WordBoundary))).

Definition NewEvaluator : Evaluator :=
  {| vaguenessPatterns := [genericNounPattern; danglingReferencePattern];
     minimumLength := 10;
     minimumWords := 2;
     confidenceThreshold := 0.7 |}.

(** Field updates of [result]. *)
Definition setIsClear (b : bool) (r : EvaluationResult) : EvaluationResult :=
  mkEvaluationResult b (Feedback r) (SuggestedRefinement r) (Confidence r)
    (DetectedIssues r) (RefinedPrompt r) (SuggestedAgentKeywords r).

Definition setFeedback (f : string) (r : EvaluationResult) : EvaluationResult :=
  mkEvaluationResult (IsClear r) f (SuggestedRefinement r) (Confidence r)
    (DetectedIssues r) (RefinedPrompt r) (SuggestedAgentKeywords r).

Definition setSuggestedRefinement (s : string) (r : EvaluationResult)
  : EvaluationResult :=
  mkEvaluationResult (IsClear r) (Feedback r) s (Confidence r)
    (DetectedIssues r) (RefinedPrompt r) (SuggestedAgentKeywords r).

Definition setConfidence (c : float) (r : EvaluationResult) : EvaluationResult :=
  mkEvaluationResult (IsClear r) (Feedback r) (SuggestedRefinement r) c
    (DetectedIssues r) (RefinedPrompt r) (SuggestedAgentKeywords r).

Definition setRefinedPrompt (p : string) (r : EvaluationResult)
  : EvaluationResult :=
  mkEvaluationResult (IsClear r) (Feedback r) (SuggestedRefinement r)
    (Confidence r) (DetectedIssues r) p (SuggestedAgentKeywords r).

Definition setSuggestedAgentKeywords (k : list string) (r : EvaluationResult)
  : EvaluationResult :=
  mkEvaluationResult (IsClear r) (Feedback r) (SuggestedRefinement r)
    (Confidence r) (DetectedIssues r) (RefinedPrompt r) k.

(** [result.DetectedIssues = append(result.DetectedIssues, issue);
     result.Confidence -= 0.2] *)
Definition penalise (issue : string) (r : EvaluationResult) : EvaluationResult :=
  mkEvaluationResult (IsClear r) (Feedback r) (SuggestedRefinement r)
    (Confidence r - 0.2)%float (DetectedIssues r ++ [issue]) (RefinedPrompt r)
    (SuggestedAgentKeywords r).

(** [result.Confidence += 0.1] *)
Definition reward (r : EvaluationResult) : EvaluationResult :=
  setConfidence (Confidence r + 0.1)%float r.

Definition actions : list string :=
  ["review"; "analyze"; "check"; "test"; "generate"; "design"; "create";
   "refactor"; "improve"; "optimize"; "fix"; "debug"; "explain";
   "implement"; "architect"; "validate"; "verify"].

Definition containsActionVerb (prompt : string) : bool :=
  let promptLower := ToLower prompt in
  existsb (fun action => Contains promptLower action) actions.

(** [len(issues) > 0 && strings.Contains(issues[0], substr)] *)
Definition firstIssueContains (issues : list string) (substr : string) : bool :=
  match issues with
  | [] => false
  | issue0 :: _ => Contains issue0 substr
  end.

Definition suggestRefinement (e : Evaluator) (prompt : string)
  (issues : list string) : string :=
  let refined := prompt in
  let refined :=
    if firstIssueContains issues "vague" then
      if negb (Contains refined " for ") && negb (Contains refined " including ")
      then refined +:+ " for correctness and best practices"
      else refined
    else refined in
  let refined :=
    if firstIssueContains issues "too short" then
      if negb (Contains refined " including ")
      then refined +:+ " including error handling and edge cases"
      else refined
    else refined in
  refined.

(** The entries of the map literal [domainKeywords], in the order in which
    the source declares them. *)
Definition domainKeywords : list (string * list string) :=
  [ ("code|review|quality|bug|issue|fix|check|error|performance|refactor|correct",
     ["code-review"; "quality"]);
    ("test|coverage|unit-test|mock|integration-test|edge-case",
     ["test-generator"; "testing"]);
    ("architecture|design|pattern|structure|organize|scale|module|boundary",
     ["architecture-advisor"; "design"]);
    ("doc|readme|guide|comment|explain|write|api|tutorial",
     ["documentation-writer"; "docs"]) ].

(** An order in which [for pattern, kws := range domainKeywords] may visit
    the entries: the Go specification leaves the iteration order of a map
    unspecified, and the runtime randomises it from one loop to the next. *)
Definition range_order (visit : list (string * list string)) : Prop :=
  visit ≡ₚ domainKeywords.

(** The first loop of [ExtractKeywords]. *)
Definition collectKeywords (visit : list (string * list string))
  (promptLower : string) : list string :=
  foldl (fun keywords entry =>
           let re := MustCompile entry.1 in
           if MatchString re promptLower then keywords ++ entry.2 else keywords)
        [] visit.

(** The second loop of [ExtractKeywords]: [seen] and [unique]. *)
Fixpoint removeDuplicates (seen : gmap string bool) (unique : list string)
  (keywords : list string) : list string :=
  match keywords with
  | [] => unique
  | kw :: rest =>
      if negb (default false (seen !! kw))
      then removeDuplicates (<[kw := true]> seen) (unique ++ [kw]) rest
      else removeDuplicates seen unique rest
  end.

(** [ExtractKeywords], [visit] being the order in which this call's [range]
    visits the entries of [domainKeywords]. *)
Definition ExtractKeywords (visit : list (string * list string))
  (prompt : string) : list string :=
  let promptLower := ToLower prompt in
  let keywords := collectKeywords visit promptLower in
  removeDuplicates ∅ [] keywords.

Definition emptyResult (prompt : string) : EvaluationResult :=
  {| IsClear := false; Feedback := EmptyString;
     SuggestedRefinement := EmptyString; Confidence := 0;
     DetectedIssues := []; RefinedPrompt := prompt;
     SuggestedAgentKeywords := [] |}.

(** [if cond { result = f(result) }] *)
Definition when {A : Type} (cond : bool) (f : A -> A) (result : A) : A :=
  if cond then f result else result.

(** "Ensure confidence is between 0 and 1". *)
Definition clampConfidence (result : EvaluationResult) : EvaluationResult :=
  let result :=
    if (Confidence result <? 0)%float then setConfidence 0 result
    else result in
  if (1 <? Confidence result)%float then setConfidence 1 result else result.

(** "Determine clarity" and "Generate feedback". *)
Definition conclude (e : Evaluator) (prompt : string)
  (result : EvaluationResult) : EvaluationResult :=
  let result :=
    setIsClear (confidenceThreshold e <=? Confidence result)%float result in
  if IsClear result then
    setRefinedPrompt prompt
      (setFeedback "Prompt is clear and actionable." result)
  else
    let result :=
      setFeedback "Prompt could be improved for clarity and specificity."
        result in
    let result :=
      setSuggestedRefinement
        (suggestRefinement e prompt (DetectedIssues result)) result in
    setRefinedPrompt (SuggestedRefinement result) result.

Definition Evaluate (visit : list (string * list string)) (e : Evaluator)
  (prompt : string) : EvaluationResult :=
  let result := emptyResult prompt in
  let prompt := TrimSpace prompt in
  if String.eqb prompt EmptyString then
    setConfidence 0
      (setFeedback "Prompt is empty. Please provide a task description."
         (setIsClear false result))
  else
    let result := setConfidence 0.7 result in
    let result :=
      when (len prompt <? minimumLength e)%nat
        (penalise "Prompt is too short and lacks context") result in
    let words := Fields prompt in
    let result :=
      when (length words <? minimumWords e)%nat
        (penalise "Prompt lacks sufficient detail") result in
    let result :=
      when (existsb (fun pattern => MatchString pattern (ToLower prompt))
              (vaguenessPatterns e))
        (penalise "Prompt uses vague terms (e.g., 'it', 'this', 'module')")
        result in
    let hasSpecificFile := Contains prompt ".go" || Contains prompt "/" in
    let hasFunction := Contains prompt "func" || Contains prompt "()" in
    let hasActionVerb := containsActionVerb prompt in
    let result := when hasSpecificFile reward result in
    let result := when hasFunction reward result in
    let result := when hasActionVerb reward result in
    let result := clampConfidence result in
    let result := conclude e prompt result in
    setSuggestedAgentKeywords (ExtractKeywords visit prompt) result.

End Prompt.

(* ===================================================================== *)
(** * Package [agents]: the registry and keyword ranking *)
(* ===================================================================== *)

Module Agents.

Record Agent : Type := mkAgent {
  Name : string;
  Description : string;
  Keywords : list string
}.

(** [agents] maps a name to its agent, [order] keeps the discovery order. *)
Record Registry : Type := mkRegistry {
  agents : gmap string Agent;
  order : list string
}.

Definition NewRegistry : Registry := {| agents := ∅; order := [] |}.

Inductive AddError : Type :=
| EmptyName
| AlreadyRegistered (name : string).

(** [Add]: the registry after the call and the error returned. *)
Definition Add (r : Registry) (agent : Agent) : Registry * option AddError :=
  if String.eqb (Name agent) EmptyString then (r, Some EmptyName)
  else
    match agents r !! Name agent with
    | Some _ => (r, Some (AlreadyRegistered (Name agent)))
    | None =>
        ({| agents := <[Name agent := agent]> (agents r);
            order := order r ++ [Name agent] |}, None)
    end.

(** [Get]: [None] is the nil pointer. *)
Definition Get (r : Registry) (name : string) : option Agent :=
  agents r !! name.

(** [All].  Every name of [order] is a key of [agents] in a registry made
    by [NewRegistry] and [Add], so that no entry of the result is nil. *)
Definition All (r : Registry) : list Agent :=
  omap (fun name => agents r !! name) (order r).

(** The registry after a sequence of [Add] calls; a call that fails
    leaves the registry as it was, and the next agent is added, as in
    the discovery, which logs the error and goes on. *)
Definition registered (adds : list Agent) : Registry :=
  foldl (fun r agent => (Add r agent).1) NewRegistry adds.

(** [calculateMatchScore].  The float64 [score] only ever holds the even
    integers [0, 2, 4, ...], which binary64 represents exactly as long as
    they stay below 2^53; it is the integer [score] here. *)
Definition calculateMatchScore (agentKeywords : list string)
  (searchKeywords : gmap string bool) : Z :=
  if (length agentKeywords =? 0)%nat || (size searchKeywords =? 0)%nat then 0%Z
  else
    foldl (fun score kw =>
             if default false (searchKeywords !! kw) then (score + 2)%Z
             else score)
          0%Z agentKeywords.

Record scored : Type := mkScored { agent : Agent; score : Z }.

(** The body of the inner loop:
    [if scores[j].score > scores[i].score { swap scores[i], scores[j] }]. *)
Definition exchange (i j : nat) (scores : list scored) : list scored :=
  match scores !! i, scores !! j with
  | Some si, Some sj =>
      if (score sj >? score si)%Z then <[i := sj]> (<[j := si]> scores)
      else scores
  | _, _ => scores
  end.

(** [for j := ...; j < len(scores); j++], with [steps] iterations left. *)
Fixpoint innerLoop (steps i j : nat) (scores : list scored) : list scored :=
  match steps with
  | O => scores
  | S steps' => innerLoop steps' i (S j) (exchange i j scores)
  end.

(** [for i := ...; i < len(scores); i++], with [steps] iterations left;
    the inner loop runs [j] from [i + 1] to [len(scores) - 1]. *)
Fixpoint outerLoop (steps i : nat) (scores : list scored) : list scored :=
  match steps with
  | O => scores
  | S steps' =>
      outerLoop steps' (S i) (innerLoop (length scores - S i) i (S i) scores)
  end.

Definition sortByScore (scores : list scored) : list scored :=
  outerLoop (length scores) 0 scores.

(** [keywordSet[kw] = true] for every input keyword. *)
Definition keywordSetOf (keywords : list string) : gmap string bool :=
  foldl (fun keywordSet kw => <[kw := true]> keywordSet) ∅ keywords.

(** The scoring loop of [MatchKeywords]. *)
Definition scoreAgents (all : list Agent) (keywordSet : gmap string bool)
  : list scored :=
  foldl (fun scores a =>
           let sc := calculateMatchScore (Keywords a) keywordSet in
           if (sc >? 0)%Z then scores ++ [mkScored a sc] else scores)
        [] all.

Definition MatchKeywords (r : Registry) (keywords : list string) : list Agent :=
  let keywordSet := keywordSetOf keywords in
  let scores := scoreAgents (All r) keywordSet in
  let scores := sortByScore scores in
  map agent scores.

End Agents.

(* ===================================================================== *)
(** * Package [cli]: invoking the external command *)
(* ===================================================================== *)

Module Cli.
Import GoStrings.

(** [Output] is a [json.RawMessage]; [None] is the nil slice. *)
Record InvocationResult : Type := mkInvocationResult {
  Agent : string;
  Success : bool;
  Output : option string;
  Error : string;
  ExitCode : Z;
  Duration : Z;
  Timestamp : Z
}.

Record Invoker : Type := mkInvoker {
  timeout : Z;
  retries : nat
}.

Definition NewInvoker (timeout : Z) : Invoker :=
  {| timeout := timeout; retries := 1 |}.

(** The two errors of a [context.Context]. *)
Inductive CtxError : Type := Canceled | DeadlineExceeded.

(** The error of [cmd.Run()]: an [*exec.ExitError] with its exit code, or
    any other error (the command was not found, could not be started, its
    output could not be copied ...), each with the text of [Error()]. *)
Inductive RunError : Type :=
| ExitError (code : Z) (text : string)
| OtherError (text : string).

Definition errorText (e : RunError) : string :=
  match e with ExitError _ text => text | OtherError text => text end.

(** What one run of the external command leaves behind. *)
Record CmdRun : Type := mkCmdRun {
  started : Z;                 (* time.Now() before the run *)
  elapsed : Z;                 (* time.Since(start) after it *)
  runErr : option RunError;    (* the result of cmd.Run() *)
  stdout : string;
  stderr : string;
  deadlineExceeded : bool      (* ctx.Err() == context.DeadlineExceeded, for
                                  the context the command ran under: the
                                  caller's, or the caller's with the
                                  invoker's timeout when it has no deadline *)
}.

(** What the operating system and Go's library provide. *)
Class Runtime (World : Type) : Type := {
  (* exec.CommandContext(ctx, "copilot", args...) followed by cmd.Run() *)
  runCopilot : World -> list string -> CmdRun * World;
  (* ctx.Err() of the caller's context *)
  ctxErr : World -> option CtxError;
  (* json.Unmarshal of the text into a json.RawMessage: the raw value,
     or None when the text is not valid JSON *)
  jsonRaw : string -> option string;
  (* the %v rendering of a time.Duration *)
  showDuration : Z -> string
}.

(** An entry written through the logger: its level and its message. *)
Inductive Level : Type := Debug | Info | Warn | Err.

Record LogEntry : Type := mkLogEntry { level : Level; msg : string }.

Definition quote : string := String (ascii_of_nat 34) EmptyString.

(** [InvokeAgent]: the result, the Go error ([None] is nil), the world
    after the call and the log entries written. *)
Definition InvokeAgent `{Runtime World} (i : Invoker) (w : World)
  (agentName prompt : string)
  : (InvocationResult * option string) * World * list LogEntry :=
  let '(run, w') :=
    runCopilot w ["--agent=" +:+ agentName; "--prompt=" +:+ prompt] in
  let exitCode :=
    match runErr run with
    | Some (ExitError code _) => code
    | _ => 0%Z
    end in
  let stdoutStr := stdout run in
  let '(output, success) :=
    if negb (String.eqb stdoutStr EmptyString) then
      match jsonRaw stdoutStr with
      | Some jsonOutput => (Some jsonOutput, true)
      | None => (Some (quote +:+ TrimSpace stdoutStr +:+ quote), true)
      end
    else (None, false) in
  match runErr run with
  | Some err =>
      let error :=
        if deadlineExceeded run then
          "agent invocation timed out after " +:+ showDuration (timeout i)
        else if negb (String.eqb (stderr run) EmptyString) then stderr run
        else errorText err in
      ({| Agent := agentName; Success := false; Output := output;
          Error := error; ExitCode := exitCode; Duration := elapsed run;
          Timestamp := started run |}, None, w',
       [mkLogEntry Warn "agent invocation failed"])
  | None =>
      ({| Agent := agentName; Success := success; Output := output;
          Error := EmptyString; ExitCode := exitCode; Duration := elapsed run;
          Timestamp := started run |}, None, w',
       [mkLogEntry Debug "agent invocation succeeded"])
  end.

(** [ListAgents]: the result, the Go error and the world after the call.
    It runs the orchestrator agent under the same kind of context as
    [InvokeAgent] and writes no log entry.  [[]byte(stdout.String())] is
    never the nil slice. *)
Definition ListAgents `{Runtime World} (i : Invoker) (w : World)
  : (InvocationResult * option string) * World :=
  let '(run, w') :=
    runCopilot w ["--agent=orchestrator";
                  "--prompt=List all available agents and their descriptions"] in
  match runErr run with
  | Some err =>
      ({| Agent := "orchestrator"; Success := false; Output := None;
          Error := stderr run;
          ExitCode := match err with
                      | ExitError code _ => code
                      | OtherError _ => 0%Z
                      end;
          Duration := elapsed run; Timestamp := started run |}, None, w')
  | None =>
      ({| Agent := "orchestrator"; Success := true;
          Output := Some (stdout run); Error := EmptyString; ExitCode := 0%Z;
          Duration := elapsed run; Timestamp := started run |}, None, w')
  end.

(** [IsAvailable]: [copilot --version] ran without error. *)
Definition IsAvailable `{Runtime World} (i : Invoker) (w : World)
  : bool * World :=
  let '(run, w') := runCopilot w ["--version"] in
  (match runErr run with None => true | Some _ => false end, w').

(** [CheckAuth]: [copilot auth status]. *)
Definition CheckAuth `{Runtime World} (i : Invoker) (w : World)
  : bool * World :=
  let '(run, w') := runCopilot w ["auth"; "status"] in
  match runErr run with
  | Some _ => (false, w')
  | None =>
      (Contains (stdout run) "authenticated"
       || negb (String.eqb (stdout run) EmptyString), w')
  end.

End Cli.

(* ===================================================================== *)
(** * Package [orchestrator]: selection, chain execution, synthesis *)
(* ===================================================================== *)

Module Orchestrator.
Import GoStrings.

Import Agents(Agent).
Import Cli(InvocationResult, LogEntry, mkLogEntry).

(** What a run does to the outside: it calls the invoker for an agent with
    a prompt, or it writes a log entry. *)
Inductive Event : Type :=
| Invoked (agentName prompt : string)
| Logged (entry : LogEntry).

Definition logged (level : Cli.Level) (msg : string) : Event :=
  Logged (mkLogEntry level msg).

Record ContextState : Type := mkContextState {
  OriginalPrompt : string;
  RefinedPrompt : string;
  EvaluationFeedback : Prompt.EvaluationResult;
  AgentResults : list InvocationResult;
  FinalOutput : string;
  SelectedAgents : list string;
  SelectionRationale : string;
  TotalDuration : Z
}.

(** The zero value [ContextState{}]. *)
Definition zeroContextState : ContextState :=
  {| OriginalPrompt := EmptyString; RefinedPrompt := EmptyString;
     EvaluationFeedback := Prompt.emptyResult EmptyString;
     AgentResults := []; FinalOutput := EmptyString; SelectedAgents := [];
     SelectionRationale := EmptyString; TotalDuration := 0 |}.

Definition setAgentResults (results : list InvocationResult)
  (s : ContextState) : ContextState :=
  mkContextState (OriginalPrompt s) (RefinedPrompt s) (EvaluationFeedback s)
    results (FinalOutput s) (SelectedAgents s) (SelectionRationale s)
    (TotalDuration s).

Definition setFinalOutput (out : string) (s : ContextState) : ContextState :=
  mkContextState (OriginalPrompt s) (RefinedPrompt s) (EvaluationFeedback s)
    (AgentResults s) out (SelectedAgents s) (SelectionRationale s)
    (TotalDuration s).

(** The errors the run operations return: [fmt.Errorf("agent %q not
    found", name)] and [ctx.Err()]. *)
Inductive Error : Type :=
| NotFoundError (name : string)
| CancellationError (cause : Cli.CtxError).

(** The invoker as the chain executor uses it: the cancellation of the
    context it is given, and [InvokeAgent] with its result, its Go error
    ([None] is nil; the result is not looked at when there is an error),
    the world after the call and the log entries written meanwhile. *)
Record Collaborator (World : Type) : Type := mkCollaborator {
  done : World -> option Cli.CtxError;
  invokeAgent : World -> string -> string ->
                (InvocationResult * option string) * World * list LogEntry
}.
Arguments done {World}.
Arguments invokeAgent {World}.

(** The invoker of the program: the CLI invoker of package [cli]. *)
Definition cliCollaborator `{Cli.Runtime World} (i : Cli.Invoker)
  : Collaborator World :=
  {| done := Cli.ctxErr; invokeAgent := Cli.InvokeAgent i |}.

Record Orchestrator (World : Type) : Type := mkOrchestrator {
  registry : Agents.Registry;
  invoker : Collaborator World;
  evaluator : Prompt.Evaluator
}.
Arguments registry {World}.
Arguments invoker {World}.
Arguments evaluator {World}.

Definition NewOrchestrator `{Cli.Runtime World} (registry : Agents.Registry)
  (invoker : Cli.Invoker) : Orchestrator World :=
  {| registry := registry; invoker := cliCollaborator invoker;
     evaluator := Prompt.NewEvaluator |}.

Definition nl : string := String (ascii_of_nat 10) EmptyString.

(** [string(result.Output)] *)
Definition outputText (r : InvocationResult) : string :=
  default EmptyString (Cli.Output r).

(** The loop of [buildAgentPrompt] over the previous results, [i] being
    the index of the first of them. *)
Fixpoint previousResultLines (i : nat) (prev : list InvocationResult) : string :=
  match prev with
  | [] => EmptyString
  | prevResult :: rest =>
      (nl +:+ "- Agent " +:+ itoa (i + 1) +:+ " (" +:+ Cli.Agent prevResult
         +:+ "): " +:+ outputText prevResult)
      +:+ previousResultLines (S i) rest
  end.

Definition buildAgentPrompt (basePrompt : string) (agent : Agent)
  (contextState : ContextState) : string :=
  let agentPrompt := basePrompt in
  let agentPrompt :=
    agentPrompt +:+ (nl +:+ nl +:+ "[Agent Context: You are the "
                       +:+ Agents.Name agent +:+ ". "
                       +:+ Agents.Description agent +:+ "]") in
  if (0 <? length (AgentResults contextState))%nat then
    let agentPrompt := agentPrompt +:+ (nl +:+ nl +:+ "[Previous Agent Results:]") in
    let agentPrompt :=
      agentPrompt +:+ previousResultLines 0 (AgentResults contextState) in
    agentPrompt +:+ (nl +:+ "[Consider these results in your response]")
  else agentPrompt.

(** The first loop of [synthesizeOutput]. *)
Fixpoint resultBlocks (i : nat) (results : list InvocationResult) : string :=
  match results with
  | [] => EmptyString
  | result :: rest =>
      ("## Agent " +:+ itoa (i + 1) +:+ ": " +:+ Cli.Agent result +:+ nl)
      +:+ (if Cli.Success result then
             ("Status: ✓ Success" +:+ nl)
             +:+ (match Cli.Output result with
                  | Some out => "Output:" +:+ nl +:+ out +:+ nl +:+ nl
                  | None => EmptyString
                  end)
           else
             ("Status: ✗ Failed" +:+ nl)
             +:+ (if negb (String.eqb (Cli.Error result) EmptyString)
                  then "Error: " +:+ Cli.Error result +:+ nl +:+ nl
                  else EmptyString))
      +:+ resultBlocks (S i) rest
  end.

(** [successCount] of [synthesizeOutput]. *)
Definition successCount (results : list InvocationResult) : nat :=
  foldl (fun n r => if Cli.Success r then S n else n) 0%nat results.

Definition synthesizeOutput (contextState : ContextState)
  (results : list InvocationResult) : string :=
  ("=== Agent Chain Results ===" +:+ nl +:+ nl)
  +:+ resultBlocks 0 results
  +:+ (nl +:+ "=== Summary ===" +:+ nl)
  +:+ ("Total Agents Executed: " +:+ itoa (length results) +:+ nl)
  +:+ ("Successful Executions: " +:+ itoa (successCount results) +:+ nl).

(** The result the chain records when the invoker returns a Go error. *)
Definition failedInvocation (agent : Agent) (err : string) : InvocationResult :=
  {| Cli.Agent := Agents.Name agent; Cli.Success := false; Cli.Output := None;
     Cli.Error := err; Cli.ExitCode := 1; Cli.Duration := 0;
     Cli.Timestamp := 0 |}.

(** [result.Success && result.Output != nil] *)
Definition forwarded (result : InvocationResult) : bool :=
  Cli.Success result && bool_decide (Cli.Output result <> None).

(** The loop of [executeChain] over the agents left, with the variables
    [results] and [contextState], the world and the events so far. *)
Fixpoint chainLoop {World} (o : Orchestrator World) (prompt : string)
  (agents : list Agent) (results : list InvocationResult)
  (contextState : ContextState) (w : World) (events : list Event)
  : (string * list InvocationResult * option Error) * World * list Event :=
  match agents with
  | [] =>
      let finalOutput := synthesizeOutput contextState results in
      ((finalOutput, results, None), w, events)
  | agent :: rest =>
      match done (invoker o) w with
      | Some cause =>
          ((EmptyString, results, Some (CancellationError cause)), w, events)
      | None =>
          let agentPrompt := buildAgentPrompt prompt agent contextState in
          let events :=
            events ++ [logged Cli.Debug "invoking agent";
                       Invoked (Agents.Name agent) agentPrompt] in
          let '((result, err), w, written) :=
            invokeAgent (invoker o) w (Agents.Name agent) agentPrompt in
          let events := events ++ map Logged written in
          let '(result, events) :=
            match err with
            | Some e =>
                (failedInvocation agent e,
                 events ++ [logged Cli.Err "agent invocation error"])
            | None => (result, events)
            end in
          let results := results ++ [result] in
          let contextState :=
            if forwarded result
            then setAgentResults (AgentResults contextState ++ [result])
                   contextState
            else contextState in
          chainLoop o prompt rest results contextState w events
      end
  end.

Definition executeChain {World} (o : Orchestrator World) (w : World)
  (prompt : string) (agents : list Agent) (initialContext : ContextState)
  : (string * list InvocationResult * option Error) * World * list Event :=
  chainLoop o prompt agents [] initialContext w [].

Definition selectAgents {World} (o : Orchestrator World)
  (keywords : list string) (maxCount : nat) : list Agent :=
  let matched := Agents.MatchKeywords (registry o) keywords in
  if (maxCount <? length matched)%nat then take maxCount matched else matched.

Definition selectTopAgents {World} (o : Orchestrator World) (count : nat)
  : list Agent :=
  let agents := Agents.All (registry o) in
  if (count <? length agents)%nat then take count agents else agents.

Definition buildRationale (keywords : list string) (selectedAgents : list Agent)
  : string :=
  if (length selectedAgents =? 0)%nat then "No agents matched the prompt keywords"
  else
    ("Selected based on keywords: " +:+ Join keywords ", " +:+ ". ")
    +:+ "Agents: " +:+ Join (map Agents.Name selectedAgents) ", ".

Definition agentNames (agents : list Agent) : list string :=
  map Agents.Name agents.

(** [RunWithAuto].  [visit1] and [visit2] are the orders in which the two
    calls of [ExtractKeywords] (inside [Evaluate], then [extractKeywords])
    range over the domain rules. *)
Definition RunWithAuto {World} (o : Orchestrator World)
  (visit1 visit2 : list (string * list string)) (w : World)
  (userPrompt : string)
  : (ContextState * option Error) * World * list Event :=
  let events := [logged Cli.Debug "evaluating prompt"] in
  let evaluation := Prompt.Evaluate visit1 (evaluator o) userPrompt in
  let refinedPrompt := Prompt.RefinedPrompt evaluation in
  let events :=
    if negb (Prompt.IsClear evaluation)
    then events ++ [logged Cli.Info "prompt refined"] else events in
  let keywords := Prompt.ExtractKeywords visit2 refinedPrompt in
  let selectedAgents := selectAgents o keywords 2 in
  let '(selectedAgents, events) :=
    if (length selectedAgents =? 0)%nat
    then (selectTopAgents o 3,
          events ++ [logged Cli.Warn
                       "no agents selected, trying broader search"])
    else (selectedAgents, events) in
  let state :=
    {| OriginalPrompt := userPrompt; RefinedPrompt := refinedPrompt;
       EvaluationFeedback := evaluation; AgentResults := [];
       FinalOutput := EmptyString;
       SelectedAgents := agentNames selectedAgents;
       SelectionRationale := buildRationale keywords selectedAgents;
       TotalDuration := 0 |} in
  let events := events ++ [logged Cli.Info "agents selected"] in
  let '((finalOutput, results, err), w, written) :=
    executeChain o w refinedPrompt selectedAgents zeroContextState in
  let events := events ++ written in
  match err with
  | Some e =>
      ((state, Some e), w,
       events ++ [logged Cli.Err "chain execution failed"])
  | None =>
      ((setFinalOutput finalOutput (setAgentResults results state), None),
       w, events)
  end.

(** The lookup loop of [RunWithExplicitChain]: the agents found, or the
    first name that [Get] does not find. *)
Fixpoint resolveAgents (r : Agents.Registry) (agentNames : list string)
  (selectedAgents : list Agent) : string + list Agent :=
  match agentNames with
  | [] => inr selectedAgents
  | name :: rest =>
      match Agents.Get r name with
      | None => inl name
      | Some agent => resolveAgents r rest (selectedAgents ++ [agent])
      end
  end.

Definition RunWithExplicitChain {World} (o : Orchestrator World)
  (visit : list (string * list string)) (w : World) (userPrompt : string)
  (agentNames : list string)
  : (ContextState * option Error) * World * list Event :=
  let state :=
    {| OriginalPrompt := userPrompt; RefinedPrompt := userPrompt;
       EvaluationFeedback := Prompt.emptyResult EmptyString;
       AgentResults := []; FinalOutput := EmptyString;
       SelectedAgents := agentNames; SelectionRationale := EmptyString;
       TotalDuration := 0 |} in
  match resolveAgents (registry o) agentNames [] with
  | inl name => ((state, Some (NotFoundError name)), w, [])
  | inr selectedAgents =>
      let evaluation := Prompt.Evaluate visit (evaluator o) userPrompt in
      let state :=
        mkContextState (OriginalPrompt state) (RefinedPrompt state) evaluation
          (AgentResults state) (FinalOutput state) (SelectedAgents state)
          (SelectionRationale state) (TotalDuration state) in
      let '((finalOutput, results, err), w, written) :=
        executeChain o w userPrompt selectedAgents zeroContextState in
      match err with
      | Some e => ((state, Some e), w, written)
      | None =>
          ((setFinalOutput finalOutput (setAgentResults results state), None),
           w, written)
      end
  end.

Definition ListAgents {World} (o : Orchestrator World) : list Agent :=
  Agents.All (registry o).

End Orchestrator.

(* ===================================================================== *)
(** * Package [agents]: the discovery of agent files *)
(* ===================================================================== *)

Module Discovery.
Import GoStrings Regexp Agents.

Definition newline : ascii := ascii_of_nat 10.

(** The closing delimiter of the pattern, [\n---]. *)
Definition closing : string := String newline "---".

(** The group and the closing delimiter, [([\s\S]*?)\n---]: the lazy star
    takes the shortest text that a newline and three dashes follow. *)
Fixpoint untilClosing (s : string) : option string :=
  if HasPrefix s closing then Some EmptyString
  else
    match s with
    | EmptyString => None
    | String c s' => option_map (String c) (untilClosing s')
    end.

(** [\s*\n([\s\S]*?)\n---]: the greedy star first takes every white-space
    byte it can and gives them back one at a time, as the leftmost-first
    match of Go's [regexp] does. *)
Fixpoint afterOpening (s : string) : option string :=
  match s with
  | EmptyString => None
  | String c s' =>
      if isReSpace c then
        match afterOpening s' with
        | Some group => Some group
        | None => if Ascii.eqb c newline then untilClosing s' else None
        end
      else None
  end.

(** [extractFrontmatter]: [matches[1]] of [^---\s*\n([\s\S]*?)\n---], or
    [None] for the error "frontmatter not found". *)
Definition extractFrontmatter (content : string) : option string :=
  if HasPrefix content "---" then afterOpening (dropBytes 3 content)
  else None.

(** The errors of [parseAgentFile]. *)
Inductive ParseError : Type :=
| ReadFailed
| FrontmatterNotFound
| NoFrontmatter
| NameNotFound.

(** The cutset of [strings.Trim(kw, ...)]: the double and the single quote. *)
Definition quotes : string := String (ascii_of_nat 34) "'".

(** The branch of [parseAgentFile] for a [keywords:] line. *)
Definition parseKeywords (keywordsStr : string) (keywords : list string)
  : list string :=
  if HasPrefix keywordsStr "[" && HasSuffix keywordsStr "]" then
    let keywordsStr := TrimPrefix keywordsStr "[" in
    let keywordsStr := TrimSuffix keywordsStr "]" in
    let parts := splitByte ","%char keywordsStr in
    foldl (fun keywords part =>
             let kw := TrimSpace part in
             let kw := Trim kw quotes in
             if negb (String.eqb kw EmptyString) then keywords ++ [kw]
             else keywords)
          keywords parts
  else keywords.

(** The body of the loop of [parseAgentFile] over the lines. *)
Definition parseLine (agent : Agent) (line : string) : Agent :=
  let line := TrimSpace line in
  if HasPrefix line "name:" then
    mkAgent (TrimSpace (TrimPrefix line "name:")) (Description agent)
      (Keywords agent)
  else if HasPrefix line "description:" then
    mkAgent (Name agent) (TrimSpace (TrimPrefix line "description:"))
      (Keywords agent)
  else if HasPrefix line "keywords:" then
    let keywordsStr := TrimSpace (TrimPrefix line "keywords:") in
    mkAgent (Name agent) (Description agent)
      (parseKeywords keywordsStr (Keywords agent))
  else agent.

(** "Simple YAML parsing" of the frontmatter. *)
Definition parseFrontmatter (frontmatter : string) : Agent :=
  let agent := mkAgent EmptyString EmptyString [] in
  let lines := splitByte newline frontmatter in
  foldl parseLine agent lines.

(** [parseAgentFile], given what [os.ReadFile] returns for the path: the
    content, or [None] for an error. *)
Definition parseAgentFile (read : option string) : Agent + ParseError :=
  match read with
  | None => inr ReadFailed
  | Some content =>
      match extractFrontmatter content with
      | None => inr FrontmatterNotFound
      | Some frontmatter =>
          if String.eqb frontmatter EmptyString then inr NoFrontmatter
          else
            let agent := parseFrontmatter frontmatter in
            if String.eqb (Name agent) EmptyString then inr NameNotFound
            else inl agent
      end
  end.

(** An entry of the agents directory, with what reading it gives. *)
Record DirEntry : Type := mkDirEntry {
  entryName : string;
  IsDir : bool;
  read : option string
}.

(** The agents directory: it does not exist, [os.ReadDir] fails, or it
    lists its entries (sorted by file name). *)
Inductive AgentsDir : Type :=
| Missing
| Unreadable
| Listing (entries : list DirEntry).

(** What [Discover] writes through the logger, with the fields. *)
Inductive LogLine : Type :=
| WarnDirectoryNotFound
| WarnParseFailed (file : string) (err : ParseError)
| WarnAddFailed (name : string) (err : AddError)
| DebugDiscovered (name : string)
| InfoComplete (count : nat).

(** The body of the loop of [Discover]: the registry, [discoveredCount]
    and the log. *)
Definition discoverEntry (state : Registry * nat * list LogLine)
  (entry : DirEntry) : Registry * nat * list LogLine :=
  let '(registry, discoveredCount, log) := state in
  if negb (IsDir entry) && HasSuffix (entryName entry) ".md" then
    match parseAgentFile (read entry) with
    | inr err =>
        (registry, discoveredCount,
         log ++ [WarnParseFailed (entryName entry) err])
    | inl agent =>
        match Add registry agent with
        | (registry, Some err) =>
            (registry, discoveredCount,
             log ++ [WarnAddFailed (Name agent) err])
        | (registry, None) =>
            (registry, S discoveredCount,
             log ++ [DebugDiscovered (Name agent)])
        end
    end
  else state.

(** [Discover] on the registry of the discovery: the registry after the
    call, whether an error is returned, and the log. *)
Definition Discover (registry : Registry) (dir : AgentsDir)
  : Registry * bool * list LogLine :=
  match dir with
  | Missing => (registry, false, [WarnDirectoryNotFound])
  | Unreadable => (registry, true, [])
  | Listing entries =>
      let '(registry, discoveredCount, log) :=
        foldl discoverEntry (registry, 0%nat, []) entries in
      (registry, false, log ++ [InfoComplete discoveredCount])
  end.

End Discovery.

(* ===================================================================== *)
(** * Package [config]: the configuration from the environment *)
(* ===================================================================== *)

Module Config.

Record Config : Type := mkConfig {
  RepoRoot : string;
  LogLevel : string;
  CacheEnabled : bool;
  CLITimeout : Z                 (* a time.Duration, in nanoseconds *)
}.

(** [strconv.ParseBool]; [None] is the syntax error. *)
Definition ParseBool (str : string) : option bool :=
  if existsb (String.eqb str) ["1"; "t"; "T"; "TRUE"; "true"; "True"]
  then Some true
  else if existsb (String.eqb str) ["0"; "f"; "F"; "FALSE"; "false"; "False"]
  then Some false
  else None.

Section Environment.

(** [os.Getenv]: the value of the variable, empty when it is not set. *)
Variable Getenv : string -> string.

(** [time.ParseDuration]; [None] is its error. *)
Variable ParseDuration : string -> option Z.

Definition getEnv (key defaultVal : string) : string :=
  let val := Getenv key in
  if negb (String.eqb val EmptyString) then val else defaultVal.

Definition getEnvBool (key : string) (defaultVal : bool) : bool :=
  let val := Getenv key in
  if String.eqb val EmptyString then defaultVal
  else
    match ParseBool val with
    | None => defaultVal
    | Some b => b
    end.

Definition getEnvDuration (key : string) (defaultVal : Z) : Z :=
  let val := Getenv key in
  if String.eqb val EmptyString then defaultVal
  else
    match ParseDuration val with
    | None => defaultVal
    | Some d => d
    end.

(** [time.Second], in nanoseconds. *)
Definition Second : Z := 1000000000.

Definition LoadFromEnv : Config :=
  {| RepoRoot := getEnv "REPO_ROOT" ".";
     LogLevel := getEnv "LOG_LEVEL" "info";
     CacheEnabled := getEnvBool "CACHE_ENABLED" true;
     CLITimeout := getEnvDuration "COPILOT_CLI_TIMEOUT" (300 * Second) |}.

End Environment.

End Config.

(* ===================================================================== *)
(** * The clarity score *)
(* ===================================================================== *)

Module Score.
Import GoStrings Regexp Prompt.

(** The six tests [Evaluate] makes on the trimmed prompt. *)
Record Tests : Type := mkTests {
  tooShort : bool;       (* fewer than 10 bytes *)
  tooFewWords : bool;    (* fewer than 2 fields *)
  vague : bool;          (* some vagueness pattern matches *)
  namesFile : bool;      (* ".go" or "/" occurs *)
  namesFunction : bool;  (* "func" or "()" occurs *)
  hasVerb : bool         (* an action verb occurs, whatever the case *)
}.

Definition testsOf (trimmed : string) : Tests :=
  {| tooShort := (len trimmed <? 10)%nat;
     tooFewWords := (length (Fields trimmed) <? 2)%nat;
     vague := existsb (fun pattern => MatchString pattern (ToLower trimmed))
                [genericNounPattern; danglingReferencePattern];
     namesFile := Contains trimmed ".go" || Contains trimmed "/";
     namesFunction := Contains trimmed "func" || Contains trimmed "()";
     hasVerb := existsb (fun verb => Contains (ToLower trimmed) verb) actions |}.

(** The float64 operations of [Evaluate], in its order. *)
Definition clamp01 (c : float) : float :=
  let c := if (c <? 0)%float then 0%float else c in
  if (1 <? c)%float then 1%float else c.

Definition computed (t : Tests) : float :=
  let c := 0.7%float in
  let c := if tooShort t then (c - 0.2)%float else c in
  let c := if tooFewWords t then (c - 0.2)%float else c in
  let c := if vague t then (c - 0.2)%float else c in
  let c := if namesFile t then (c + 0.1)%float else c in
  let c := if namesFunction t then (c + 0.1)%float else c in
  let c := if hasVerb t then (c + 0.1)%float else c in
  clamp01 c.






(** The tags of the rules that match, in the order of the visit. *)
Definition matchingTags (visit : list (string * list string))
  (promptLower : string) : list string :=
  concat (map snd
            (List.filter
               (fun entry => MatchString (MustCompile entry.1) promptLower)
               visit)).

(** The issues [Evaluate] detects, in the order of its tests. *)
Definition issuesOf (t : Tests) : list string :=
  (if tooShort t then ["Prompt is too short and lacks context"] else [])
  ++ (if tooFewWords t then ["Prompt lacks sufficient detail"] else [])
  ++ (if vague t
      then ["Prompt uses vague terms (e.g., 'it', 'this', 'module')"] else []).


(** [seen] holds exactly the keywords already in [unique]. *)
Definition seenIs (seen : gmap string bool) (unique : list string) : Prop :=
  forall kw, default false (seen !! kw) = true <-> kw ∈ unique.

End Score.

(* ===================================================================== *)
(** * The ranking, as the specification words it *)
(* ===================================================================== *)

Module RankSpec.
Import Agents.

(** The number of keywords of the agent that are among the input keywords. *)
Definition countMatches (agentKeywords keywords : list string) : nat :=
  length (List.filter (fun kw => bool_decide (kw ∈ keywords)) agentKeywords).

(** 2.0 for each of them. *)
Definition specScore (keywords : list string) (a : Agent) : Z :=
  2 * Z.of_nat (countMatches (Keywords a) keywords).

(** Descending scores. *)
Definition descending (keywords : list string) (a b : Agent) : Prop :=
  (specScore keywords b <= specScore keywords a)%Z.

(** A stable sort by descending score: an agent goes before the agents
    already placed (registered after it) that do not score higher. *)
Fixpoint insertRanked (keywords : list string) (a : Agent)
  (ranked : list Agent) : list Agent :=
  match ranked with
  | [] => [a]
  | b :: ranked' =>
      if (specScore keywords b <=? specScore keywords a)%Z
      then a :: b :: ranked'
      else b :: insertRanked keywords a ranked'
  end.

Definition stableRank (keywords : list string) (all : list Agent)
  : list Agent :=
  foldr (insertRanked keywords) []
    (List.filter (fun a => (0 <? specScore keywords a)%Z) all).

(** The first [i] positions hold scores in descending order, none lower
    than a score at a later position. *)
Definition prefixSorted (i : nat) (scores : list scored) : Prop :=
  forall p q a b,
    (p < i)%nat -> (p < q)%nat ->
    scores !! p = Some a -> scores !! q = Some b -> (score b <= score a)%Z.

(** No position strictly between [i] and [j] holds a score higher than
    the one at [i]. *)
Definition headMax (i j : nat) (scores : list scored) : Prop :=
  forall q a b,
    (i < q < j)%nat ->
    scores !! i = Some a -> scores !! q = Some b -> (score b <= score a)%Z.

(** The names in [order] are the keys of [agents], each once, and every
    agent is stored under its name. *)
Definition registryOk (r : Registry) : Prop :=
  NoDup (order r)
  /\ (forall name, name ∈ order r <-> is_Some (agents r !! name))
  /\ (forall name a, agents r !! name = Some a -> Name a = name).

End RankSpec.

(* ===================================================================== *)
(** * The chain, as the specification words it *)
(* ===================================================================== *)

Module ChainSpec.
Import GoStrings Orchestrator.

(** The prompts the invoker was called with, in the order of the calls. *)
Definition prompts (events : list Event) : list string :=
  omap (fun e => match e with Invoked _ p => Some p | Logged _ => None end)
       events.

(** The agents the invoker was called for, in the order of the calls. *)
Definition invokedAgents (events : list Event) : list string :=
  omap (fun e => match e with Invoked name _ => Some name | Logged _ => None end)
       events.

(** The outcome recorded for a step: the invoker's result, or the failed
    result made from its Go error. *)
Definition recorded (agent : Agents.Agent) (result : Cli.InvocationResult)
  (err : option string) : Cli.InvocationResult :=
  match err with
  | Some e => failedInvocation agent e
  | None => result
  end.

(** The identity preamble of an agent. *)
Definition identityPreamble (agent : Agents.Agent) : string :=
  nl +:+ nl +:+ "[Agent Context: You are the " +:+ Agents.Name agent +:+ ". "
     +:+ Agents.Description agent +:+ "]".



(** The agents [RunWithAuto] selects for the keywords of the refined
    prompt: the two best matches, or the first three registered agents
    when nothing matches. *)
Definition autoSelection {World} (o : Orchestrator World)
  (visit : list (string * list string)) (refinedPrompt : string)
  : list Agents.Agent :=
  let selected :=
    selectAgents o (Prompt.ExtractKeywords visit refinedPrompt) 2 in
  if (length selected =? 0)%nat then selectTopAgents o 3 else selected.

(** The report of an automatic run before the chain has run. *)
Definition autoState {World} (o : Orchestrator World)
  (visit1 visit2 : list (string * list string))
  (userPrompt : string) : ContextState :=
  let evaluation := Prompt.Evaluate visit1 (evaluator o) userPrompt in
  let refined := Prompt.RefinedPrompt evaluation in
  {| OriginalPrompt := userPrompt; RefinedPrompt := refined;
     EvaluationFeedback := evaluation; AgentResults := [];
     FinalOutput := EmptyString;
     SelectedAgents := agentNames (autoSelection o visit2 refined);
     SelectionRationale :=
       buildRationale (Prompt.ExtractKeywords visit2 refined)
         (autoSelection o visit2 refined);
     TotalDuration := 0 |}.


(** The log entry of the branch of [executeChain] that converts a Go
    error of the invoker into a failed outcome. *)
Definition conversionLogged : Event :=
  logged Cli.Err "agent invocation error".

(** The last two lines of a report. *)
Definition summaryLines (total successful : nat) : string :=
  "Total Agents Executed: " +:+ itoa total +:+ nl
  +:+ "Successful Executions: " +:+ itoa successful +:+ nl.

(** The report of a chain of no agents. *)
Definition emptyReport : string :=
  "=== Agent Chain Results ===" +:+ nl +:+ nl +:+ nl +:+ "=== Summary ==="
  +:+ nl +:+ summaryLines 0 0.

End ChainSpec.

(* ===================================================================== *)
(** * The evaluation, as its callers read it *)
(* ===================================================================== *)

Module EvaluatorSpec.
Import GoStrings Regexp Prompt Score.

(** Every byte of the string is white space. *)
Fixpoint blank (s : string) : bool :=
  match s with
  | EmptyString => true
  | String c s' => isSpace c && blank s'
  end.

Definition count (b : bool) : nat := if b then 1 else 0.



(** The result of [Evaluate] for an empty prompt. *)
Definition emptyEvaluation (prompt : string) : EvaluationResult :=
  {| IsClear := false;
     Feedback := "Prompt is empty. Please provide a task description.";
     SuggestedRefinement := EmptyString; Confidence := 0;
     DetectedIssues := []; RefinedPrompt := prompt;
     SuggestedAgentKeywords := [] |}.

(** An alternation of literals, each starting with a byte that is not
    white space. *)
Fixpoint startsWithWord (r : regex) : bool :=
  match r with
  | Lit (String c _) => negb (isSpace c)
  | Alt r1 r2 => startsWithWord r1 && startsWithWord r2
  | _ => false
  end.


End EvaluatorSpec.

(* ===================================================================== *)
(** * Agent files, as the discovery reads them *)
(* ===================================================================== *)

Module DiscoverySpec.
Import GoStrings Regexp Agents Discovery.

(** Every byte is white space of the class [\s] of the pattern. *)
Fixpoint allReSpace (s : string) : bool :=
  match s with
  | EmptyString => true
  | String c s' => isReSpace c && allReSpace s'
  end.

(** The byte occurs in the string. *)
Fixpoint hasByte (b : ascii) (s : string) : bool :=
  match s with
  | EmptyString => false
  | String c s' => Ascii.eqb c b || hasByte b s'
  end.

(** A line break. *)
Definition br : string := String newline EmptyString.

(** Every byte is below 128. *)
Fixpoint isASCII (s : string) : bool :=
  match s with
  | EmptyString => true
  | String c s' => (nat_of_ascii c <? 128)%nat && isASCII s'
  end.

(** The value of a field: ASCII text on one line, no white space around
    it. *)
Definition plainField (s : string) : bool :=
  isASCII s && String.eqb (TrimSpace s) s && negb (hasByte newline s).

(** A keyword the array syntax can carry: not empty, no comma, no quote
    at either end. *)
Definition plainKeyword (kw : string) : bool :=
  negb (String.eqb kw EmptyString) && plainField kw
  && negb (hasByte ","%char kw) && String.eqb (Trim kw quotes) kw.

Definition plainAgent (a : Agent) : bool :=
  negb (String.eqb (Name a) EmptyString) && plainField (Name a)
  && plainField (Description a) && forallb plainKeyword (Keywords a).

(** The frontmatter that describes an agent, and a file with it. *)
Definition frontmatterOf (a : Agent) : string :=
  "name: " +:+ Name a +:+ br
  +:+ "description: " +:+ Description a +:+ br
  +:+ "keywords: [" +:+ Join (Keywords a) ", " +:+ "]".

Definition agentFile (a : Agent) (body : string) : string :=
  "---" +:+ br +:+ frontmatterOf a +:+ closing +:+ body.

(** The entries [Discover] parses. *)
Definition isAgentFile (entry : DirEntry) : bool :=
  negb (IsDir entry) && HasSuffix (entryName entry) ".md".

Definition isDiscovered (line : LogLine) : bool :=
  match line with DebugDiscovered _ => true | _ => false end.


End DiscoverySpec.

(* ===================================================================== *)
(** * Concrete registries and collaborators *)
(* ===================================================================== *)

Module Examples.
Import Agents Orchestrator.

Definition reviewer : Agent :=
  mkAgent "code-reviewer" "Reviews code" ["code-review"; "go"; "quality"].
Definition tester : Agent :=
  mkAgent "test-generator" "Generates tests" ["testing"; "unit-tests"; "go"].
Definition writer : Agent :=
  mkAgent "documentation-writer" "Writes docs" ["documentation"; "readme"].
Definition goWriter : Agent :=
  mkAgent "documentation-writer" "Writes docs"
    ["documentation"; "readme"; "go"].

(** The registry of the repository's test of [MatchKeywords]. *)
Definition testRegistry : Registry := registered [reviewer; tester; writer].

(** Two agents that tie, registered before one that scores higher. *)
Definition tieRegistry : Registry := registered [reviewer; tester; goWriter].

Definition succeeded (name out : string) : Cli.InvocationResult :=
  {| Cli.Agent := name; Cli.Success := true; Cli.Output := Some out;
     Cli.Error := EmptyString; Cli.ExitCode := 0; Cli.Duration := 1;
     Cli.Timestamp := 0 |}.

Definition failed (name err : string) : Cli.InvocationResult :=
  {| Cli.Agent := name; Cli.Success := false; Cli.Output := None;
     Cli.Error := err; Cli.ExitCode := 1; Cli.Duration := 1;
     Cli.Timestamp := 0 |}.

(** A collaborator over the world "number of invocations so far": the
    context is found cancelled once [cancelAfter] invocations were made,
    and the invocation number [w] answers as [script w] says. *)
Definition scripted (cancelAfter : nat)
  (script : nat -> string -> Cli.InvocationResult * option string)
  : Collaborator nat :=
  {| done := fun w => if (w =? cancelAfter)%nat then Some Cli.Canceled else None;
     invokeAgent := fun w name _ => (script w name, S w, []) |}.

(** Every invocation succeeds. *)
Definition allSucceed (w : nat) (name : string)
  : Cli.InvocationResult * option string :=
  (succeeded name "42", None).

(** The first invocation cannot be attempted, the later ones succeed. *)
Definition firstUnavailable (w : nat) (name : string)
  : Cli.InvocationResult * option string :=
  if (w =? 0)%nat then (failed name EmptyString, Some "connection refused")
  else (succeeded name "42", None).

(** A runtime over the same world: the first run of the external command
    exits with status 1 and prints nothing, the later ones print [42]. *)
Definition firstRunFails : Cli.Runtime nat :=
  {| Cli.runCopilot := fun w _ =>
       (if (w =? 0)%nat
        then Cli.mkCmdRun 0 1 (Some (Cli.ExitError 1 "exit status 1"))
               EmptyString "agent crashed" false
        else Cli.mkCmdRun 0 1 None "42" EmptyString false, S w);
     Cli.ctxErr := fun _ => None;
     Cli.jsonRaw := fun text => Some text;
     Cli.showDuration := fun _ => "5m0s" |}.

(** The context is found cancelled after the first invocation. *)
Definition cancelO : Orchestrator nat :=
  mkOrchestrator nat testRegistry (scripted 1 allSucceed) Prompt.NewEvaluator.

(** The context is not cancelled before 99 invocations were made; the
    first invocation cannot be made. *)
Definition flakyO : Orchestrator nat :=
  mkOrchestrator nat testRegistry (scripted 99 firstUnavailable)
    Prompt.NewEvaluator.

(** The program's orchestrator over the runtime [firstRunFails]. *)
Definition cliO : Orchestrator nat :=
  @NewOrchestrator nat firstRunFails testRegistry (Cli.NewInvoker 300).

(** No agent is registered, and the context is cancelled from the start. *)
Definition emptyO : Orchestrator nat :=
  mkOrchestrator nat NewRegistry (scripted 0 allSucceed) Prompt.NewEvaluator.

(** A runtime in which the external command succeeds and prints nothing. *)
Definition silentRuntime : Cli.Runtime unit :=
  {| Cli.runCopilot := fun w _ =>
       (Cli.mkCmdRun 0 1 None EmptyString EmptyString false, w);
     Cli.ctxErr := fun _ => None;
     Cli.jsonRaw := fun text => Some text;
     Cli.showDuration := fun _ => "5m0s" |}.

(** The agents directory of the repository's test of the discovery, with
    a sub-directory added. *)
Definition agentOne : Agent := mkAgent "agent1" "First agent" ["one"; "first"].
Definition agentTwo : Agent :=
  mkAgent "agent2" "Second agent" ["two"; "second"].

Definition testDirectory : list Discovery.DirEntry :=
  [ Discovery.mkDirEntry "agent1.md" false
      (Some (DiscoverySpec.agentFile agentOne DiscoverySpec.br));
    Discovery.mkDirEntry "agent2.md" false
      (Some (DiscoverySpec.agentFile agentTwo DiscoverySpec.br));
    Discovery.mkDirEntry "drafts" true None;
    Discovery.mkDirEntry "invalid.md" false (Some "No frontmatter") ].

End Examples.

(* ===================================================================== *)
(** * Facts about the string functions *)
(* ===================================================================== *)

Module GoStringsFacts.
Import GoStrings.

Lemma append_nil (b : string) : EmptyString +:+ b = b.
Proof. reflexivity. Qed.

Lemma append_cons (x : ascii) (a b : string) :
  String x a +:+ b = String x (a +:+ b).
Proof. reflexivity. Qed.

Lemma append_empty_r (s : string) : s +:+ EmptyString = s.
Proof.
  induction s as [|c s IH]; [reflexivity|]. now rewrite append_cons, IH.
Qed.

Lemma append_assoc (a b c : string) : (a +:+ b) +:+ c = a +:+ (b +:+ c).
Proof.
  induction a as [|x a IH]; [reflexivity|]. now rewrite !append_cons, IH.
Qed.

Lemma len_append (a b : string) : len (a +:+ b) = (len a + len b)%nat.
Proof.
  unfold len. induction a as [|x a IH]; [reflexivity|].
  rewrite append_cons. simpl. now rewrite IH.
Qed.




Lemma trimLeft_idem (s : string) : trimLeft (trimLeft s) = trimLeft s.
Proof.
  induction s as [|c s IH]; [reflexivity|]. simpl.
  destruct (isSpace c) eqn:E; [exact IH|]. simpl. now rewrite E.
Qed.

(** The head of a left-trimmed text is not a space. *)
Lemma trimLeft_head (s : string) (c : ascii) (t : string) :
  trimLeft s = String c t -> isSpace c = false.
Proof.
  induction s as [|x s IH]; simpl; [discriminate|].
  destruct (isSpace x) eqn:E; [exact IH|]. intros [= -> _]. exact E.
Qed.

Lemma trimRight_head (s : string) (c : ascii) (t : string) :
  trimRight s = String c t -> exists s', s = String c s'.
Proof.
  destruct s as [|x s]; simpl; [discriminate|].
  destruct (trimRight s); [destruct (isSpace x)|]; intros [= -> _]; eauto.
Qed.

Lemma trimLeft_fixed (c : ascii) (t : string) :
  isSpace c = false -> trimLeft (String c t) = String c t.
Proof. intros E. simpl. now rewrite E. Qed.


(** [TrimSpace] leaves a text alone whose ends are already trimmed. *)
Lemma TrimSpace_head (s : string) (c : ascii) (t : string) :
  TrimSpace s = String c t -> isSpace c = false.
Proof.
  unfold TrimSpace. intros H.
  destruct (trimRight_head _ _ _ H) as [s' Hs']. eapply trimLeft_head; eauto.
Qed.


Lemma trimRight_append (a b : string) :
  trimRight b <> EmptyString -> trimRight (a +:+ b) = a +:+ trimRight b.
Proof.
  intros Hb. induction a as [|x a IH]; [reflexivity|].
  change (String x a +:+ b) with (String x (a +:+ b)). cbn [trimRight].
  rewrite IH, append_cons. destruct (a +:+ trimRight b) eqn:E; [|reflexivity].
  destruct a; [contradiction | discriminate].
Qed.




End GoStringsFacts.

(* ===================================================================== *)
(** * Facts about the evaluator *)
(* ===================================================================== *)

Module PromptFacts.
Import GoStrings Regexp Prompt Score GoStringsFacts.

(** ** The float64 arithmetic, by cases on the six tests *)





(** Without issue the prompt is clear. *)
Lemma computed_clear (t : Tests) :
  tooShort t = false -> tooFewWords t = false -> vague t = false ->
  (0.7 <=? computed t)%float = true.
Proof.
  destruct t as [[] [] [] [] [] []]; cbn [tooShort tooFewWords vague];
    intros; try discriminate; vm_compute; reflexivity.
Qed.


(** ** [Evaluate] in closed form *)

Lemma Evaluate_empty (visit : list (string * list string)) (prompt : string) :
  TrimSpace prompt = EmptyString ->
  Evaluate visit NewEvaluator prompt =
  {| IsClear := false;
     Feedback := "Prompt is empty. Please provide a task description.";
     SuggestedRefinement := EmptyString; Confidence := 0;
     DetectedIssues := []; RefinedPrompt := prompt;
     SuggestedAgentKeywords := [] |}.
Proof. intros E. unfold Evaluate. rewrite E. reflexivity. Qed.

Lemma Evaluate_nonempty (visit : list (string * list string)) (prompt : string) :
  TrimSpace prompt <> EmptyString ->
  let q := TrimSpace prompt in
  let t := testsOf q in
  let clear := (0.7 <=? computed t)%float in
  Evaluate visit NewEvaluator prompt =
  {| IsClear := clear;
     Feedback := if clear then "Prompt is clear and actionable."
                 else "Prompt could be improved for clarity and specificity.";
     SuggestedRefinement :=
       if clear then EmptyString
       else suggestRefinement NewEvaluator q (issuesOf t);
     Confidence := computed t;
     DetectedIssues := issuesOf t;
     RefinedPrompt :=
       if clear then q else suggestRefinement NewEvaluator q (issuesOf t);
     SuggestedAgentKeywords := ExtractKeywords visit q |}.
Proof.
  intros Hne q t clear. subst clear. unfold Evaluate. fold q.
  destruct (String.eqb q EmptyString) eqn:E.
  { apply String.eqb_eq in E. contradiction. }
  change (len q <? minimumLength NewEvaluator)%nat with (tooShort t).
  change (length (Fields q) <? minimumWords NewEvaluator)%nat
    with (tooFewWords t).
  change (existsb (fun pattern => MatchString pattern (ToLower q))
            (vaguenessPatterns NewEvaluator)) with (vague t).
  change (Contains q ".go" || Contains q "/") with (namesFile t).
  change (Contains q "func" || Contains q "()") with (namesFunction t).
  change (containsActionVerb q) with (hasVerb t).
  clearbody t. clearbody q.
  destruct t as [[] [] [] [] [] []];
    cbv [when penalise reward setIsClear setFeedback setSuggestedRefinement
         setConfidence setRefinedPrompt setSuggestedAgentKeywords
         clampConfidence conclude emptyResult computed clamp01 issuesOf
         IsClear Feedback SuggestedRefinement Confidence DetectedIssues
         RefinedPrompt SuggestedAgentKeywords tooShort tooFewWords vague
         namesFile namesFunction hasVerb confidenceThreshold NewEvaluator
         app PrimFloat.sub PrimFloat.add PrimFloat.ltb PrimFloat.leb];
    reflexivity.
Qed.

(** ** The refinement never scores lower *)










(** ** The confidence formula *)





(** The penalty for vagueness is taken once when both patterns match. *)
Example vagueness_penalised_once :
  let q := "please fix it and the other thing" in
  MatchString genericNounPattern q = true
  /\ MatchString danglingReferencePattern q = true
  /\ DetectedIssues (Evaluate domainKeywords NewEvaluator q)
     = ["Prompt uses vague terms (e.g., 'it', 'this', 'module')"]
  /\ Confidence (Evaluate domainKeywords NewEvaluator q)
     = (0.7 - 0.2 + 0.1)%float.
Proof. repeat split; vm_compute; reflexivity. Qed.

(** ** Keyword extraction and the order of the map iteration *)

Lemma collectKeywords_matchingTags (visit : list (string * list string))
  (promptLower : string) :
  collectKeywords visit promptLower = matchingTags visit promptLower.
Proof.
  unfold collectKeywords, matchingTags.
  enough (H : forall acc,
             foldl (fun keywords entry =>
                      if MatchString (MustCompile entry.1) promptLower
                      then keywords ++ entry.2 else keywords) acc visit
             = acc ++ concat (map snd
                  (List.filter
                     (fun entry => MatchString (MustCompile entry.1) promptLower)
                     visit))) by apply (H []).
  induction visit as [|entry visit IH]; intros acc; cbn [foldl List.filter].
  - cbn. now rewrite app_nil_r.
  - rewrite IH.
    destruct (MatchString (MustCompile entry.1) promptLower); [|reflexivity].
    cbn [map concat]. now rewrite app_assoc.
Qed.

Lemma matchingTags_Permutation (visit1 visit2 : list (string * list string))
  (promptLower : string) :
  visit1 ≡ₚ visit2 ->
  matchingTags visit1 promptLower ≡ₚ matchingTags visit2 promptLower.
Proof.
  unfold matchingTags.
  induction 1 as [|x l l' _ IH|x y l|l l' l'' _ IH1 _ IH2];
    cbn [List.filter].
  - reflexivity.
  - destruct (MatchString (MustCompile x.1) promptLower); cbn [map concat];
      [apply Permutation_app_head|]; exact IH.
  - destruct (MatchString (MustCompile y.1) promptLower),
      (MatchString (MustCompile x.1) promptLower); cbn [map concat];
      try reflexivity.
    apply Permutation_app_swap_app.
  - etransitivity; eassumption.
Qed.

Lemma seenIs_insert (seen : gmap string bool) (unique : list string)
  (kw : string) :
  seenIs seen unique -> seenIs (<[kw := true]> seen) (unique ++ [kw]).
Proof.
  intros H kw'. specialize (H kw').
  rewrite elem_of_app, list_elem_of_singleton.
  destruct (decide (kw = kw')) as [->|Hne].
  - rewrite lookup_insert_eq. cbn. tauto.
  - rewrite lookup_insert_ne by exact Hne. split; [tauto|].
    intros [?|?]; [tauto | congruence].
Qed.

Lemma removeDuplicates_spec (keywords : list string) :
  forall (seen : gmap string bool) (unique : list string),
    seenIs seen unique -> NoDup unique ->
    NoDup (removeDuplicates seen unique keywords)
    /\ (forall kw, kw ∈ removeDuplicates seen unique keywords
                   <-> kw ∈ unique \/ kw ∈ keywords).
Proof.
  induction keywords as [|kw rest IH]; intros seen unique Hseen Hnd;
    cbn [removeDuplicates].
  - split; [exact Hnd|]. intros kw. rewrite elem_of_nil. tauto.
  - destruct (default false (seen !! kw)) eqn:E; cbn [negb].
    + destruct (IH seen unique Hseen Hnd) as [H1 H2]. split; [exact H1|].
      intros kw'. rewrite H2, elem_of_cons.
      apply Hseen in E. split; [tauto|]. intros [?|[->|?]]; tauto.
    + assert (Hnotin : kw ∉ unique).
      { intros Hin. apply Hseen in Hin. congruence. }
      destruct (IH (<[kw := true]> seen) (unique ++ [kw])) as [H1 H2].
      * now apply seenIs_insert.
      * apply NoDup_app. repeat split; [exact Hnd| |apply NoDup_singleton].
        intros x Hx Hx'. apply list_elem_of_singleton in Hx'. congruence.
      * split; [exact H1|]. intros kw'.
        rewrite H2, elem_of_app, list_elem_of_singleton, elem_of_cons. tauto.
Qed.

(** Without duplicates to remove, the second loop returns its input. *)
Lemma removeDuplicates_NoDup (keywords : list string) :
  forall (seen : gmap string bool) (unique : list string),
    seenIs seen unique -> NoDup (unique ++ keywords) ->
    removeDuplicates seen unique keywords = unique ++ keywords.
Proof.
  induction keywords as [|kw rest IH]; intros seen unique Hseen Hnd;
    cbn [removeDuplicates].
  - now rewrite app_nil_r.
  - apply NoDup_app in Hnd as (Hu & Hdisj & Hk).
    assert (Hnotin : kw ∉ unique).
    { intros Hin. apply (Hdisj kw Hin). apply elem_of_cons. now left. }
    destruct (default false (seen !! kw)) eqn:E; cbn [negb].
    { apply Hseen in E. contradiction. }
    rewrite IH.
    + now rewrite <- app_assoc.
    + now apply seenIs_insert.
    + rewrite <- app_assoc. cbn [app]. apply NoDup_app.
      repeat split; [exact Hu|exact Hdisj|exact Hk].
Qed.

Lemma seenIs_empty : seenIs ∅ [].
Proof.
  intros kw. rewrite lookup_empty, elem_of_nil. cbn. split; [discriminate|tauto].
Qed.

(** The tags of the declared rules are pairwise distinct. *)
Lemma domainKeywords_tags_NoDup : NoDup (concat (map snd domainKeywords)).
Proof. compute_done. Qed.

Lemma matchingTags_NoDup (visit : list (string * list string))
  (promptLower : string) :
  range_order visit -> NoDup (matchingTags visit promptLower).
Proof.
  intros Hperm.
  assert (Hall : NoDup (concat (map snd visit))).
  { unfold range_order in Hperm. rewrite Hperm.
    apply domainKeywords_tags_NoDup. }
  clear Hperm. unfold matchingTags.
  induction visit as [|entry visit IH]; cbn [List.filter map concat].
  - constructor.
  - cbn [map concat] in Hall. apply NoDup_app in Hall as (H1 & H2 & H3).
    destruct (MatchString (MustCompile entry.1) promptLower);
      [|now apply IH].
    cbn [map concat]. apply NoDup_app. repeat split; [exact H1| |now apply IH].
    intros kw Hkw Hin. apply (H2 kw Hkw).
    clear -Hin. induction visit as [|e visit IH]; [exact Hin|].
    cbn [List.filter] in Hin. cbn [map concat]. apply elem_of_app.
    destruct (MatchString (MustCompile e.1) promptLower); [|right; auto].
    cbn [map concat] in Hin. apply elem_of_app in Hin as [?|?]; auto.
Qed.

(** What [ExtractKeywords] returns for an order of visit: the tags of the
    matching rules, in that order. *)
Lemma ExtractKeywords_matchingTags (visit : list (string * list string))
  (prompt : string) :
  range_order visit ->
  ExtractKeywords visit prompt = matchingTags visit (ToLower prompt).
Proof.
  intros Hperm. unfold ExtractKeywords.
  rewrite collectKeywords_matchingTags.
  rewrite removeDuplicates_NoDup; [reflexivity | apply seenIs_empty |].
  now apply matchingTags_NoDup.
Qed.

(** C3, as the code has it.  Any two calls of [ExtractKeywords] on the same
    input return the same keywords, each once: the two lists are
    permutations of one another.  Their order is the order in which the
    call's [range] over the map of domain rules visits the matching rules,
    each contributing its tags, and that order is not fixed from one call
    to the next; two calls that visit the rules in the same order return
    the same list. *)
Theorem ExtractKeywords_same_up_to_order
  (visit1 visit2 : list (string * list string)) (prompt : string) :
  range_order visit1 -> range_order visit2 ->
  ExtractKeywords visit1 prompt ≡ₚ ExtractKeywords visit2 prompt
  /\ NoDup (ExtractKeywords visit1 prompt)
  /\ ExtractKeywords visit1 prompt = matchingTags visit1 (ToLower prompt)
  /\ (visit1 = visit2 ->
      ExtractKeywords visit1 prompt = ExtractKeywords visit2 prompt).
Proof.
  intros H1 H2. rewrite !ExtractKeywords_matchingTags by assumption.
  repeat split.
  - apply matchingTags_Permutation.
    transitivity domainKeywords; [exact H1 | symmetry; exact H2].
  - now apply matchingTags_NoDup.
  - now intros ->.
Qed.

Lemma ExtractKeywords_same_up_to_order_witness :
  range_order domainKeywords /\ range_order (rev domainKeywords)
  /\ ExtractKeywords domainKeywords "test code"
     ≡ₚ ExtractKeywords (rev domainKeywords) "test code".
Proof.
  assert (H1 : range_order domainKeywords)
    by (unfold range_order; reflexivity).
  assert (H2 : range_order (rev domainKeywords))
    by (unfold range_order; symmetry; apply Permutation_rev).
  split; [exact H1|]. split; [exact H2|].
  apply (ExtractKeywords_same_up_to_order domainKeywords (rev domainKeywords)
           "test code" H1 H2).
Defined.

(** C3 does not hold as stated: two visits of the same map give the
    keywords of ["test code"] in two different orders. *)
Lemma ExtractKeywords_order_counterexample :
  range_order domainKeywords /\ range_order (rev domainKeywords)
  /\ ExtractKeywords domainKeywords "test code"
     = ["code-review"; "quality"; "test-generator"; "testing"]
  /\ ExtractKeywords (rev domainKeywords) "test code"
     = ["test-generator"; "testing"; "code-review"; "quality"]
  /\ ExtractKeywords domainKeywords "test code"
     <> ExtractKeywords (rev domainKeywords) "test code".
Proof.
  split; [unfold range_order; reflexivity|].
  split; [unfold range_order; symmetry; apply Permutation_rev|].
  split; [vm_compute; reflexivity|]. split; [vm_compute; reflexivity|].
  vm_compute. discriminate.
Qed.

End PromptFacts.

(* ===================================================================== *)
(** * Facts about the registry and the ranking *)
(* ===================================================================== *)

Module AgentsFacts.
Import Agents RankSpec.

(** ** The keyword set and the score *)

Lemma keywordSet_lookup (keywords : list string) (kw : string) :
  forall m : gmap string bool,
    foldl (fun keywordSet kw => <[kw := true]> keywordSet) m keywords !! kw
    = if decide (kw ∈ keywords) then Some true else m !! kw.
Proof.
  induction keywords as [|k keywords IH]; intros m; cbn [foldl].
  - destruct (decide (kw ∈ [])) as [H|_]; [|reflexivity].
    now apply elem_of_nil in H.
  - rewrite IH. destruct (decide (kw ∈ keywords)) as [Hin|Hnot].
    + rewrite decide_True by (apply elem_of_cons; now right). reflexivity.
    + destruct (decide (k = kw)) as [->|Hne].
      * rewrite decide_True by (apply elem_of_cons; now left).
        apply lookup_insert_eq.
      * rewrite decide_False by (rewrite elem_of_cons; intros [?|?]; congruence).
        now apply lookup_insert_ne.
Qed.

Lemma keywordSetOf_lookup (keywords : list string) (kw : string) :
  default false (keywordSetOf keywords !! kw) = bool_decide (kw ∈ keywords).
Proof.
  unfold keywordSetOf. rewrite keywordSet_lookup.
  destruct (decide (kw ∈ keywords)) as [H|H].
  - now rewrite bool_decide_eq_true_2.
  - now rewrite lookup_empty, bool_decide_eq_false_2.
Qed.

Lemma score_loop (keywords agentKeywords : list string) :
  forall acc : Z,
    foldl (fun score kw =>
             if default false (keywordSetOf keywords !! kw)
             then (score + 2)%Z else score) acc agentKeywords
    = (acc + 2 * Z.of_nat (countMatches agentKeywords keywords))%Z.
Proof.
  unfold countMatches.
  induction agentKeywords as [|kw rest IH]; intros acc;
    cbn [foldl List.filter length]; [lia|].
  rewrite IH, keywordSetOf_lookup.
  destruct (bool_decide (kw ∈ keywords)); cbn [length]; lia.
Qed.

(** The score is 2 for every keyword of the agent that is among the
    input keywords. *)
Lemma calculateMatchScore_spec (a : Agent) (keywords : list string) :
  calculateMatchScore (Keywords a) (keywordSetOf keywords)
  = specScore keywords a.
Proof.
  unfold calculateMatchScore, specScore.
  destruct (length (Keywords a) =? 0)%nat eqn:Ea.
  { apply Nat.eqb_eq in Ea. destruct (Keywords a); [reflexivity|discriminate]. }
  destruct (size (keywordSetOf keywords) =? 0)%nat eqn:Es.
  - apply Nat.eqb_eq, map_size_empty_iff in Es. cbn [orb].
    unfold countMatches. clear Ea.
    replace (List.filter (fun kw => bool_decide (kw ∈ keywords)) (Keywords a))
      with (@nil string); [reflexivity|].
    induction (Keywords a) as [|kw rest IH]; [reflexivity|].
    cbn [List.filter]. rewrite <- keywordSetOf_lookup, Es, lookup_empty.
    exact IH.
  - cbn [orb]. rewrite score_loop. lia.
Qed.

Lemma scoreAgents_spec (keywords : list string) (all : list Agent) :
  scoreAgents all (keywordSetOf keywords)
  = map (fun a => mkScored a (specScore keywords a))
        (List.filter (fun a => (0 <? specScore keywords a)%Z) all).
Proof.
  unfold scoreAgents.
  enough (H : forall acc,
             foldl (fun scores a =>
                      let sc :=
                        calculateMatchScore (Keywords a)
                          (keywordSetOf keywords) in
                      if (sc >? 0)%Z then scores ++ [mkScored a sc] else scores)
                   acc all
             = acc ++ map (fun a => mkScored a (specScore keywords a))
                        (List.filter
                           (fun a => (0 <? specScore keywords a)%Z) all))
    by apply (H []).
  induction all as [|a all IH]; intros acc; cbn [foldl List.filter].
  - cbn. now rewrite app_nil_r.
  - cbv zeta. rewrite IH, calculateMatchScore_spec, Z.gtb_ltb.
    destruct (0 <? specScore keywords a)%Z; [|reflexivity].
    cbn [map]. now rewrite <- app_assoc.
Qed.

(** ** The exchange sort *)

Lemma exchange_length (i j : nat) (scores : list scored) :
  length (exchange i j scores) = length scores.
Proof.
  unfold exchange. destruct (scores !! i), (scores !! j); try reflexivity.
  destruct (_ >? _)%Z; [|reflexivity]. now rewrite !length_insert.
Qed.

Lemma exchange_Permutation (i j : nat) (scores : list scored) :
  exchange i j scores ≡ₚ scores.
Proof.
  unfold exchange.
  destruct (scores !! i) as [si|] eqn:Ei, (scores !! j) as [sj|] eqn:Ej;
    try reflexivity.
  destruct (_ >? _)%Z; [|reflexivity].
  now apply Permutation_insert_swap.
Qed.

Lemma innerLoop_length (steps : nat) :
  forall i j scores, length (innerLoop steps i j scores) = length scores.
Proof.
  induction steps as [|steps IH]; intros i j scores; cbn [innerLoop];
    [reflexivity|]. now rewrite IH, exchange_length.
Qed.

Lemma innerLoop_Permutation (steps : nat) :
  forall i j scores, innerLoop steps i j scores ≡ₚ scores.
Proof.
  induction steps as [|steps IH]; intros i j scores; cbn [innerLoop];
    [reflexivity|]. now rewrite IH, exchange_Permutation.
Qed.

Lemma outerLoop_length (steps : nat) :
  forall i scores, length (outerLoop steps i scores) = length scores.
Proof.
  induction steps as [|steps IH]; intros i scores; cbn [outerLoop];
    [reflexivity|]. now rewrite IH, innerLoop_length.
Qed.

Lemma outerLoop_Permutation (steps : nat) :
  forall i scores, outerLoop steps i scores ≡ₚ scores.
Proof.
  induction steps as [|steps IH]; intros i scores; cbn [outerLoop];
    [reflexivity|]. now rewrite IH, innerLoop_Permutation.
Qed.

Lemma sortByScore_Permutation (scores : list scored) :
  sortByScore scores ≡ₚ scores.
Proof. apply outerLoop_Permutation. Qed.

(** What the positions hold after two of them are swapped. *)
Lemma swapped_lookup (i j k : nat) (a b : scored) (scores : list scored) :
  (i < length scores)%nat -> (j < length scores)%nat -> i <> j ->
  <[i := b]> (<[j := a]> scores) !! k
  = if decide (k = i) then Some b
    else if decide (k = j) then Some a else scores !! k.
Proof.
  intros Hi Hj Hij. rewrite !list_lookup_insert, !length_insert.
  repeat case_decide; try reflexivity; lia.
Qed.

(** One step of the inner loop keeps the sorted prefix and moves the
    greatest score seen so far to position [i]. *)
Lemma exchange_invariant (i j : nat) (scores : list scored) :
  (i < j < length scores)%nat ->
  prefixSorted i scores -> headMax i j scores ->
  prefixSorted i (exchange i j scores)
  /\ headMax i (S j) (exchange i j scores).
Proof.
  intros Hij Hpre Hmax.
  destruct (lookup_lt_is_Some_2 scores i) as [a Ha]; [lia|].
  destruct (lookup_lt_is_Some_2 scores j) as [b Hb]; [lia|].
  unfold exchange. rewrite Ha, Hb.
  destruct (score b >? score a)%Z eqn:E.
  - apply Z.gtb_lt in E. split.
    + intros p q x y Hp Hpq. rewrite !swapped_lookup by lia.
      repeat case_decide; try lia; intros Hx Hy; simplify_eq;
        match goal with
        | Hx : scores !! ?p' = Some x, Hy : scores !! ?q' = Some ?y' |-
            (score ?y' <= score x)%Z =>
            apply (Hpre p' q' x y'); [lia | lia | exact Hx | exact Hy]
        end.
    + intros q x y Hq. rewrite !swapped_lookup by lia.
      repeat case_decide; try lia; intros Hx Hy; simplify_eq; [lia|].
      assert (score y <= score a)%Z by (eapply (Hmax q); eauto; lia). lia.
  - assert (score b <= score a)%Z.
    { destruct (Z.gtb_spec (score b) (score a)); [discriminate|lia]. }
    split; [exact Hpre|].
    intros q x y Hq Hx Hy. destruct (decide (q = j)) as [->|Hne].
    + simplify_eq. lia.
    + eapply (Hmax q); eauto. lia.
Qed.

Lemma innerLoop_invariant (steps : nat) :
  forall i j scores,
    (j + steps = length scores)%nat -> (i < j)%nat ->
    prefixSorted i scores -> headMax i j scores ->
    prefixSorted (S i) (innerLoop steps i j scores).
Proof.
  induction steps as [|steps IH]; intros i j scores Hlen Hij Hpre Hmax;
    cbn [innerLoop].
  - intros p q a b Hp Hpq Ha Hb. destruct (decide (p = i)) as [->|Hne].
    + eapply (Hmax q); eauto. apply lookup_lt_Some in Hb. lia.
    + eapply Hpre; eauto. lia.
  - destruct (exchange_invariant i j scores) as [Hpre' Hmax']; try lia;
      try assumption.
    apply IH; try assumption; [rewrite exchange_length|]; lia.
Qed.

Lemma outerLoop_invariant (steps : nat) :
  forall i scores,
    (i + steps = length scores)%nat -> prefixSorted i scores ->
    prefixSorted (length scores) (outerLoop steps i scores).
Proof.
  induction steps as [|steps IH]; intros i scores Hlen Hpre; cbn [outerLoop].
  - now replace (length scores) with i by lia.
  - rewrite <- (innerLoop_length (length scores - S i) i (S i) scores) at 1.
    apply IH.
    + rewrite innerLoop_length. lia.
    + apply innerLoop_invariant; try lia; [exact Hpre|].
      intros q a b Hq. lia.
Qed.

Lemma prefixSorted_StronglySorted (scores : list scored) :
  prefixSorted (length scores) scores ->
  StronglySorted (fun a b => (score b <= score a)%Z) scores.
Proof.
  induction scores as [|x scores IH]; intros H; constructor.
  - apply IH. intros p q a b Hp Hpq Ha Hb.
    apply (H (S p) (S q) a b); cbn; auto; lia.
  - apply Forall_lookup_2. intros k y Hy.
    apply (H 0%nat (S k) x y); cbn; auto; lia.
Qed.

(** The exchange sort sorts by descending score. *)
Lemma sortByScore_sorted (scores : list scored) :
  StronglySorted (fun a b => (score b <= score a)%Z) (sortByScore scores).
Proof.
  apply prefixSorted_StronglySorted. unfold sortByScore.
  rewrite outerLoop_length. apply outerLoop_invariant; [lia|].
  intros p q a b Hp. lia.
Qed.

(** ** The registry *)

Lemma NewRegistry_ok : registryOk NewRegistry.
Proof.
  split; [constructor|]. split.
  - intros name. cbn. rewrite elem_of_nil, lookup_empty.
    split; [tauto | intros [? ?]; discriminate].
  - intros name a. cbn. rewrite lookup_empty. discriminate.
Qed.

Lemma Add_ok (r : Registry) (a : Agent) :
  registryOk r -> registryOk (Add r a).1.
Proof.
  intros (Hnd & Hkeys & Hnames). unfold Add.
  destruct (String.eqb (Name a) EmptyString); [repeat split; auto; apply Hkeys|].
  destruct (agents r !! Name a) eqn:E; [repeat split; auto; apply Hkeys|].
  unfold registryOk. cbn [fst agents order]. split; [|split].
  - apply NoDup_app. repeat split; [exact Hnd| |apply NoDup_singleton].
    intros name Hin Hin'. apply list_elem_of_singleton in Hin'. subst name.
    apply Hkeys in Hin as [? ?]. congruence.
  - intros name. rewrite elem_of_app, list_elem_of_singleton, Hkeys.
    destruct (decide (Name a = name)) as [<-|Hne].
    + rewrite lookup_insert_eq. split; [eauto | tauto].
    + rewrite lookup_insert_ne by exact Hne. split; [|tauto].
      intros [?|?]; [assumption | congruence].
  - intros name b. destruct (decide (Name a = name)) as [<-|Hne].
    + rewrite lookup_insert_eq. now intros [= <-].
    + rewrite lookup_insert_ne by exact Hne. apply Hnames.
Qed.

Lemma registered_ok (adds : list Agent) : registryOk (registered adds).
Proof.
  unfold registered.
  enough (H : forall r, registryOk r ->
                        registryOk (foldl (fun r a => (Add r a).1) r adds))
    by apply H, NewRegistry_ok.
  induction adds as [|a adds IH]; intros r Hr; cbn [foldl]; [exact Hr|].
  apply IH, Add_ok, Hr.
Qed.

(** In such a registry [All] finds an agent for every name of [order]:
    no entry of the slice it returns is nil. *)
Lemma All_names (r : Registry) :
  registryOk r -> map Name (All r) = order r.
Proof.
  intros (_ & Hkeys & Hnames). unfold All.
  assert (Hall : forall name, name ∈ order r -> is_Some (agents r !! name))
    by (intros name; apply Hkeys).
  clear Hkeys. induction (order r) as [|name names IH]; [reflexivity|].
  destruct (Hall name) as [a Ha]; [apply elem_of_cons; now left|].
  cbn [omap list_omap]. rewrite Ha. cbn [map].
  rewrite (Hnames _ _ Ha). f_equal. apply IH.
  intros n Hn. apply Hall, elem_of_cons. now right.
Qed.

(** A rejected [Add] leaves the registry as it was. *)
Lemma Add_duplicate (r : Registry) (a : Agent) :
  is_Some (Get r (Name a)) ->
  Add r a = (r, Some (AlreadyRegistered (Name a)))
  \/ Add r a = (r, Some EmptyName).
Proof.
  intros [b Hb]. unfold Add, Get in *.
  destruct (String.eqb (Name a) EmptyString); [now right|].
  rewrite Hb. now left.
Qed.

(** ** What [MatchKeywords] guarantees *)

Lemma StronglySorted_map_agent (keywords : list string)
  (scores : list scored) :
  Forall (fun s => score s = specScore keywords (agent s)) scores ->
  StronglySorted (fun a b => (score b <= score a)%Z) scores ->
  StronglySorted (descending keywords) (map agent scores).
Proof.
  intros Hall Hsorted. induction Hsorted as [|s scores Hs IH Hle];
    cbn [map]; constructor.
  - apply IH. now apply Forall_inv_tail in Hall.
  - apply Forall_cons in Hall as [Heq Hall]. apply Forall_map.
    rewrite Forall_forall in Hle, Hall |- *. intros t Ht.
    unfold descending. rewrite <- Heq, <- (Hall t Ht). apply Hle, Ht.
Qed.

(** The agents [MatchKeywords] returns are those of the registry with a
    positive score, 2 for each of their keywords among the input keywords,
    each once, by descending score. *)
Theorem MatchKeywords_ranked (r : Registry) (keywords : list string) :
  MatchKeywords r keywords
  ≡ₚ List.filter (fun a => (0 <? specScore keywords a)%Z) (All r)
  /\ StronglySorted (descending keywords) (MatchKeywords r keywords).
Proof.
  unfold MatchKeywords. rewrite scoreAgents_spec.
  set (positive := List.filter (fun a => (0 <? specScore keywords a)%Z) (All r)).
  set (scores := map (fun a => mkScored a (specScore keywords a)) positive).
  split.
  - rewrite (sortByScore_Permutation scores). subst scores.
    rewrite map_map. cbn [agent]. now rewrite map_id.
  - apply StronglySorted_map_agent; [|apply sortByScore_sorted].
    rewrite (sortByScore_Permutation scores). subst scores.
    apply Forall_map, Forall_forall. reflexivity.
Qed.

(** With two agents registered, of which [A] has 2 matching keywords and
    [B] has 1, [MatchKeywords] returns [[A; B]], the scores being 4 and 2,
    in whichever order the two were registered. *)
Theorem MatchKeywords_two_and_one (r : Registry) (keywords : list string)
  (A B : Agent) :
  All r = [A; B] \/ All r = [B; A] ->
  countMatches (Keywords A) keywords = 2%nat ->
  countMatches (Keywords B) keywords = 1%nat ->
  MatchKeywords r keywords = [A; B]
  /\ specScore keywords A = 4%Z /\ specScore keywords B = 2%Z.
Proof.
  intros Hall HA HB.
  assert (HsA : specScore keywords A = 4%Z) by (unfold specScore; rewrite HA; lia).
  assert (HsB : specScore keywords B = 2%Z) by (unfold specScore; rewrite HB; lia).
  split; [|split; assumption].
  destruct (MatchKeywords_ranked r keywords) as [Hperm Hsorted].
  assert (Hp : MatchKeywords r keywords ≡ₚ [A; B]).
  { rewrite Hperm. destruct Hall as [-> | ->]; cbn [List.filter];
      rewrite HsA, HsB; cbn; [reflexivity | apply Permutation_swap]. }
  symmetry in Hp. apply Permutation_length_2_inv in Hp as [-> | Heq];
    [reflexivity|].
  rewrite Heq in Hsorted. apply StronglySorted_inv in Hsorted as [_ Hle].
  apply Forall_inv in Hle. unfold descending in Hle. lia.
Qed.

Import Examples.

Lemma MatchKeywords_two_and_one_witness :
  MatchKeywords (registered [tester; reviewer]) ["code-review"; "go"]
  = [reviewer; tester].
Proof.
  apply (MatchKeywords_two_and_one (registered [tester; reviewer])
           ["code-review"; "go"] reviewer tester).
  - right. vm_compute. reflexivity.
  - vm_compute. reflexivity.
  - vm_compute. reflexivity.
Defined.

(** The tie of the repository's test: two agents score 2 for ["go"] and
    no agent scores higher; they come in registration order. *)
Example MatchKeywords_test_tie :
  map Name (MatchKeywords testRegistry ["go"])
  = ["code-reviewer"; "test-generator"].
Proof. vm_compute. reflexivity. Qed.

(** C2, where the code departs from it.  Three agents are registered in
    the order code-reviewer, test-generator, documentation-writer; for the
    keywords go and documentation they score 2, 2 and 4.  [MatchKeywords]
    returns documentation-writer first, then test-generator before
    code-reviewer: the two agents that tie come out against their
    registration order, where a stable sort keeps code-reviewer before
    test-generator. *)
Theorem MatchKeywords_tie_against_registration_order :
  let keywords := ["go"; "documentation"] in
  map Name (All tieRegistry)
  = ["code-reviewer"; "test-generator"; "documentation-writer"]
  /\ map (specScore keywords) (All tieRegistry) = [2; 2; 4]%Z
  /\ map Name (MatchKeywords tieRegistry keywords)
     = ["documentation-writer"; "test-generator"; "code-reviewer"]
  /\ map Name (stableRank keywords (All tieRegistry))
     = ["documentation-writer"; "code-reviewer"; "test-generator"]
  /\ MatchKeywords tieRegistry keywords
     <> stableRank keywords (All tieRegistry).
Proof.
  repeat split; try (vm_compute; reflexivity). vm_compute. discriminate.
Qed.

End AgentsFacts.

(* ===================================================================== *)
(** * Facts about the chain executor and the run operations *)
(* ===================================================================== *)

Module OrchestratorFacts.
Import GoStrings GoStringsFacts Orchestrator ChainSpec.

Lemma omap_Logged {A : Type} (f : Event -> option A)
  (written : list Cli.LogEntry) :
  (forall entry, f (Logged entry) = None) -> omap f (map Logged written) = [].
Proof.
  intros Hf. induction written as [|entry written IH]; [reflexivity|].
  cbn. now rewrite Hf.
Qed.

Section Chain.
Context {World : Type}.
Variable o : Orchestrator World.
Variable prompt : string.

(** One turn of the loop when the context is not cancelled. *)
Lemma chainLoop_step (a : Agents.Agent) (rest : list Agents.Agent)
  (results : list Cli.InvocationResult) (ctx : ContextState) (w w1 : World)
  (events : list Event) (r : Cli.InvocationResult) (err : option string)
  (written : list Cli.LogEntry) :
  done (invoker o) w = None ->
  invokeAgent (invoker o) w (Agents.Name a) (buildAgentPrompt prompt a ctx)
  = ((r, err), w1, written) ->
  chainLoop o prompt (a :: rest) results ctx w events
  = chainLoop o prompt rest (results ++ [recorded a r err])
      (if forwarded (recorded a r err)
       then setAgentResults (AgentResults ctx ++ [recorded a r err]) ctx
       else ctx)
      w1
      (((events ++ [logged Cli.Debug "invoking agent";
                    Invoked (Agents.Name a) (buildAgentPrompt prompt a ctx)])
        ++ map Logged written)
       ++ match err with
          | Some _ => [logged Cli.Err "agent invocation error"]
          | None => []
          end).
Proof.
  intros Hdone Hinv. cbn [chainLoop]. rewrite Hdone, Hinv.
  destruct err as [e|]; cbn [recorded]; [reflexivity|].
  now rewrite app_nil_r.
Qed.

Lemma chainLoop_cancelled (a : Agents.Agent) (rest : list Agents.Agent)
  (results : list Cli.InvocationResult) (ctx : ContextState) (w : World)
  (events : list Event) (cause : Cli.CtxError) :
  done (invoker o) w = Some cause ->
  chainLoop o prompt (a :: rest) results ctx w events
  = ((EmptyString, results, Some (CancellationError cause)), w, events).
Proof. intros Hdone. cbn [chainLoop]. now rewrite Hdone. Qed.

(** What every run of the loop does: it extends the results and the
    events, by one result for each agent it got to, and the only error
    it ends with is the cancellation of the context. *)
Lemma chainLoop_shape (agents : list Agents.Agent) :
  forall results ctx w events out results' err w' events',
    chainLoop o prompt agents results ctx w events
    = ((out, results', err), w', events') ->
    (exists more, results' = results ++ more
                  /\ (length more <= length agents)%nat
                  /\ (err = None -> length more = length agents)
                  /\ invokedAgents events'
                     = invokedAgents events
                       ++ map Agents.Name (take (length more) agents))
    /\ (exists newer, events' = events ++ newer)
    /\ (err = None \/ exists cause, err = Some (CancellationError cause))
    /\ ((forall w0, done (invoker o) w0 = None) -> err = None)
    /\ (length results' = (length results + length agents)%nat -> err = None).
Proof.
  induction agents as [|a rest IH];
    intros results ctx w events out results' err w' events' Hrun.
  - cbn [chainLoop] in Hrun. injection Hrun as <- <- <- <- <-.
    repeat split; auto.
    + exists []. rewrite !app_nil_r. repeat split; auto.
    + exists []. now rewrite app_nil_r.
  - destruct (done (invoker o) w) as [cause|] eqn:Hdone.
    + rewrite (chainLoop_cancelled _ _ _ _ _ _ _ Hdone) in Hrun.
      injection Hrun as <- <- <- <- <-. repeat split;
        [| | | |cbn [length]; lia].
      * exists []. rewrite app_nil_r. repeat split;
          [cbn; lia | discriminate | ].
        change (take (length []) (a :: rest)) with (@nil Agents.Agent).
        cbn [map]. now rewrite app_nil_r.
      * exists []. now rewrite app_nil_r.
      * right. eauto.
      * intros Hnever. rewrite Hnever in Hdone. discriminate.
    + destruct (invokeAgent (invoker o) w (Agents.Name a)
                  (buildAgentPrompt prompt a ctx))
        as [[[r e] w1] written] eqn:Hinv.
      rewrite (chainLoop_step _ _ _ _ _ _ _ _ _ _ Hdone Hinv) in Hrun.
      apply IH in Hrun
        as ((more & -> & Hlen & Hall & Hinvoked) & (newer & ->) & He & Hn
            & Hfull).
      repeat split; auto;
        [| |intros Hl; apply Hfull; rewrite !length_app in *; cbn in *; lia].
      * exists (recorded a r e :: more). rewrite <- app_assoc.
        repeat split; [cbn; lia | intros H; cbn; now rewrite Hall |].
        rewrite Hinvoked. unfold invokedAgents.
        rewrite !omap_app, omap_Logged, app_nil_r by reflexivity.
        destruct e; cbn; rewrite app_nil_r, <- app_assoc; reflexivity.
      * rewrite <- !app_assoc. eauto.
Qed.

End Chain.

(** ** The run operations in terms of the chain *)

Section Runs.
Context {World : Type}.
Variable o : Orchestrator World.

Lemma RunWithAuto_run (visit1 visit2 : list (string * list string))
  (w w1 : World) (userPrompt out : string)
  (results : list Cli.InvocationResult) (err : option Error)
  (written : list Event) :
  let refined :=
    Prompt.RefinedPrompt (Prompt.Evaluate visit1 (evaluator o) userPrompt) in
  executeChain o w refined (autoSelection o visit2 refined) zeroContextState
  = ((out, results, err), w1, written) ->
  exists events,
    RunWithAuto o visit1 visit2 w userPrompt
    = ((match err with
        | Some _ => autoState o visit1 visit2 userPrompt
        | None =>
            setFinalOutput out
              (setAgentResults results (autoState o visit1 visit2 userPrompt))
        end, err), w1, events)
    /\ invokedAgents events = invokedAgents written
    /\ prompts events = prompts written.
Proof.
  intros refined Hrun. subst refined.
  unfold RunWithAuto, autoState, autoSelection in *.
  set (evaluation := Prompt.Evaluate visit1 (evaluator o) userPrompt) in *.
  destruct (length
              (selectAgents o
                 (Prompt.ExtractKeywords visit2
                    (Prompt.RefinedPrompt evaluation)) 2) =? 0)%nat;
    rewrite Hrun; destruct err; (eexists; split; [reflexivity|]);
    unfold invokedAgents, prompts; rewrite !omap_app;
    destruct (Prompt.IsClear evaluation); cbn; rewrite ?app_nil_r;
    split; reflexivity.
Qed.

(** The lookup loop finds every name, or stops at the first one that the
    registry does not hold. *)
Lemma resolveAgents_spec (names : list string) :
  forall selected,
    match resolveAgents (registry o) names selected with
    | inl name => name ∈ names /\ Agents.Get (registry o) name = None
    | inr agents =>
        exists found, agents = selected ++ found
                      /\ Forall2 (fun name agent =>
                                    Agents.Get (registry o) name = Some agent)
                                 names found
    end.
Proof.
  induction names as [|name rest IH]; intros selected; cbn [resolveAgents].
  - exists []. now rewrite app_nil_r.
  - destruct (Agents.Get (registry o) name) as [agent|] eqn:Hget.
    + specialize (IH (selected ++ [agent])).
      destruct (resolveAgents (registry o) rest (selected ++ [agent])).
      * destruct IH. split; [apply elem_of_cons; now right | assumption].
      * destruct IH as (found & -> & Hall). exists (agent :: found).
        rewrite <- app_assoc. split; [reflexivity|]. now constructor.
    + split; [apply elem_of_cons; now left | exact Hget].
Qed.

Lemma RunWithExplicitChain_run (visit : list (string * list string))
  (w w1 : World) (userPrompt out : string) (names : list string)
  (agents : list Agents.Agent) (results : list Cli.InvocationResult)
  (err : option Error) (written : list Event) :
  resolveAgents (registry o) names [] = inr agents ->
  executeChain o w userPrompt agents zeroContextState
  = ((out, results, err), w1, written) ->
  exists state,
    RunWithExplicitChain o visit w userPrompt names
    = ((state, err), w1, written)
    /\ EvaluationFeedback state
       = Prompt.Evaluate visit (evaluator o) userPrompt
    /\ RefinedPrompt state = userPrompt
    /\ SelectedAgents state = names.
Proof.
  intros Hres Hrun. unfold RunWithExplicitChain. rewrite Hres, Hrun.
  destruct err; eexists; (split; [reflexivity|]); cbn; auto.
Qed.

End Runs.

(** ** Containment of failures, unknown names, cancellation *)

Section Claims.
Context {World : Type}.
Variable o : Orchestrator World.


(** C6.  When a name of the list is not in the registry,
    [RunWithExplicitChain] returns a not-found error for a name of the
    list that the registry does not hold.  The trace of the run is empty:
    the invoker is called for no agent, not even for the names that
    resolve; the world is the one the run was given, and the report holds
    no outcome and no output. *)
Theorem explicit_chain_unknown_name (visit : list (string * list string))
  (w : World) (userPrompt : string) (names : list string) :
  (exists name, name ∈ names /\ Agents.Get (registry o) name = None) ->
  exists name state,
    RunWithExplicitChain o visit w userPrompt names
    = ((state, Some (NotFoundError name)), w, [])
    /\ name ∈ names /\ Agents.Get (registry o) name = None
    /\ AgentResults state = [] /\ FinalOutput state = EmptyString.
Proof.
  intros (missing & Hin & Hmissing).
  pose proof (resolveAgents_spec o names []) as Hspec.
  unfold RunWithExplicitChain.
  destruct (resolveAgents (registry o) names []) as [name|agents].
  - destruct Hspec as [Hname Hget]. eexists name, _. repeat split; auto.
  - exfalso. destruct Hspec as (found & _ & Hall).
    apply list_elem_of_lookup in Hin as [k Hk].
    destruct (Forall2_lookup_l _ _ _ _ _ Hall Hk) as (agent & _ & Hget).
    congruence.
Qed.

(** A run of the loop that ends without error, followed by a cancelled
    context at the next step boundary. *)
Lemma chainLoop_prefix_cancelled (prompt : string) (pre : list Agents.Agent) :
  forall results ctx w events out results' w1 events' cause a post,
    chainLoop o prompt pre results ctx w events
    = ((out, results', None), w1, events') ->
    done (invoker o) w1 = Some cause ->
    chainLoop o prompt (pre ++ a :: post) results ctx w events
    = ((EmptyString, results', Some (CancellationError cause)), w1, events').
Proof.
  induction pre as [|b pre IH];
    intros results ctx w events out results' w1 events' cause a post Hrun Hdone.
  - cbn [chainLoop] in Hrun. injection Hrun as <- <- <- <-.
    now apply chainLoop_cancelled.
  - cbn [app]. destruct (done (invoker o) w) as [c|] eqn:Hd.
    + rewrite (chainLoop_cancelled _ _ _ _ _ _ _ _ _ Hd) in Hrun.
      discriminate.
    + destruct (invokeAgent (invoker o) w (Agents.Name b)
                  (buildAgentPrompt prompt b ctx))
        as [[[r e] w2] written] eqn:Hinv.
      rewrite (chainLoop_step o prompt b pre _ _ _ _ _ _ _ _ Hd Hinv) in Hrun.
      rewrite (chainLoop_step o prompt b (pre ++ a :: post) _ _ _ _ _ _ _ _
                 Hd Hinv).
      eapply IH; eassumption.
Qed.

(** C1, as the code has it.  When the chain has recorded the outcomes of
    the agents [pre] and finds the context cancelled at the next step
    boundary, the executor calls the invoker for no further agent, does
    not synthesize (its final output is empty) and returns the
    cancellation error to the run operation together with the outcomes
    recorded so far, one for each agent of [pre]; the run operation
    returns that cancellation error to its caller. *)
Theorem cancellation_at_step_boundary (prompt : string)
  (pre : list Agents.Agent) (a : Agents.Agent) (post : list Agents.Agent)
  (w w1 : World) (out : string) (results : list Cli.InvocationResult)
  (events : list Event) (cause : Cli.CtxError) :
  executeChain o w prompt pre zeroContextState
  = ((out, results, None), w1, events) ->
  done (invoker o) w1 = Some cause ->
  executeChain o w prompt (pre ++ a :: post) zeroContextState
  = ((EmptyString, results, Some (CancellationError cause)), w1, events)
  /\ length results = length pre
  /\ invokedAgents events = map Agents.Name pre
  /\ (forall visit names,
         resolveAgents (registry o) names [] = inr (pre ++ a :: post) ->
         exists state,
           RunWithExplicitChain o visit w prompt names
           = ((state, Some (CancellationError cause)), w1, events))
  /\ (forall visit1 visit2 userPrompt,
         prompt = Prompt.RefinedPrompt
                    (Prompt.Evaluate visit1 (evaluator o) userPrompt) ->
         autoSelection o visit2 prompt = pre ++ a :: post ->
         exists state events',
           RunWithAuto o visit1 visit2 w userPrompt
           = ((state, Some (CancellationError cause)), w1, events')
           /\ invokedAgents events' = map Agents.Name pre).
Proof.
  intros Hrun Hdone.
  assert (Hcancel :
            executeChain o w prompt (pre ++ a :: post) zeroContextState
            = ((EmptyString, results, Some (CancellationError cause)), w1,
               events)).
  { unfold executeChain in *. eapply chainLoop_prefix_cancelled; eassumption. }
  pose proof Hrun as Hshape. apply chainLoop_shape in Hshape
    as ((more & Hmore & _ & Hall & Hinvoked) & _).
  cbn [app] in Hmore. subst more. specialize (Hall eq_refl).
  rewrite Hall, firstn_all in Hinvoked. cbn [app] in Hinvoked.
  repeat split; auto.
  - intros visit names Hres.
    destruct (RunWithExplicitChain_run o visit _ _ _ _ _ _ _ _ _ Hres Hcancel)
      as (state & Hr & _). eauto.
  - intros visit1 visit2 userPrompt -> Hsel. rewrite <- Hsel in Hcancel.
    destruct (RunWithAuto_run o _ _ _ _ _ _ _ _ _ Hcancel)
      as (events' & Hr & Hi & _).
    eexists _, events'. split; [exact Hr|]. now rewrite Hi.
Qed.

End Claims.

(** ** The prompts of the chain *)




Section Prompts.
Context {World : Type}.
Variable o : Orchestrator World.
Variable basePrompt : string.

(** The invoker never returns a successful result without output. *)
Hypothesis outputs_present :
  forall w name p r w1 written,
    invokeAgent (invoker o) w name p = ((r, None), w1, written) ->
    Cli.Success r = true -> Cli.Output r <> None.






End Prompts.

(** ** The CLI invoker as the collaborator of the chain *)

Section CliInvoker.
Context `{R : Cli.Runtime World}.
Variable i : Cli.Invoker.

(** Every call of [InvokeAgent] returns a result for the agent and a nil
    error, and writes one log entry, a warning or a debug message; a
    successful result has an output. *)
Lemma InvokeAgent_shape (w : World) (name p : string) :
  exists r entry w1,
    Cli.InvokeAgent i w name p = ((r, None), w1, [entry])
    /\ Cli.level entry <> Cli.Err
    /\ (Cli.Success r = true -> Cli.Output r <> None)
    /\ Cli.Agent r = name.
Proof.
  unfold Cli.InvokeAgent.
  destruct (Cli.runCopilot w ["--agent=" +:+ name; "--prompt=" +:+ p])
    as [run w1].
  destruct (Cli.runErr run) as [e|];
    destruct (negb (String.eqb (Cli.stdout run) EmptyString));
    try destruct (Cli.jsonRaw (Cli.stdout run));
    (eexists _, _, _; split; [reflexivity|]; cbn;
     repeat split; discriminate).
Qed.


Lemma cli_chain_never_converts (r0 : Agents.Registry) (basePrompt : string)
  (agents : list Agents.Agent) :
  forall results ctx w events out results' err w1 events',
    chainLoop (NewOrchestrator r0 i) basePrompt agents results ctx w events
    = ((out, results', err), w1, events') ->
    conversionLogged ∉ events -> conversionLogged ∉ events'.
Proof.
  induction agents as [|a rest IH];
    intros results ctx w events out results' err w1 events' Hrun Hnot.
  - cbn [chainLoop] in Hrun. now injection Hrun as _ _ _ _ <-.
  - destruct (done (invoker (NewOrchestrator r0 i)) w) as [cause|] eqn:Hdone.
    + rewrite (chainLoop_cancelled _ _ _ _ _ _ _ _ _ Hdone) in Hrun.
      now injection Hrun as _ _ _ _ <-.
    + destruct (InvokeAgent_shape w (Agents.Name a)
                  (buildAgentPrompt basePrompt a ctx))
        as (r & entry & w2 & Heq & Hlvl & _).
      rewrite (chainLoop_step (NewOrchestrator r0 i) basePrompt a rest results
                 ctx w w2 events r None [entry] Hdone Heq) in Hrun.
      apply IH in Hrun; [exact Hrun|].
      cbn [map]. rewrite app_nil_r, !elem_of_app, !elem_of_cons, elem_of_nil.
      intros [[H|[H|[H|H]]]|[H|H]];
        try contradiction; try discriminate.
      apply Hlvl. unfold conversionLogged, logged in H.
      injection H as <-. reflexivity.
Qed.

(** C10.  [InvokeAgent] returns a nil Go error, whatever the external
    command does.  When the command fails in any way (it exits with a
    non-zero status, cannot be found or started, is killed at the
    deadline), the result has [Success] false and its [Error] is the
    timeout message, else the text of the standard error when there is
    one, else the text of the error.  In a chain run with this invoker
    the branch that converts a Go error into a failed outcome is never
    taken: its log entry is never written. *)
Theorem InvokeAgent_returns_no_error (w w' w1 : World) (name prompt : string)
  (run : Cli.CmdRun) (result : Cli.InvocationResult) (err : option string)
  (written : list Cli.LogEntry) :
  Cli.runCopilot w ["--agent=" +:+ name; "--prompt=" +:+ prompt] = (run, w') ->
  Cli.InvokeAgent i w name prompt = ((result, err), w1, written) ->
  err = None
  /\ (forall e,
        Cli.runErr run = Some e ->
        Cli.Success result = false
        /\ Cli.Error result
           = (if Cli.deadlineExceeded run
              then "agent invocation timed out after "
                   +:+ Cli.showDuration (Cli.timeout i)
              else if negb (String.eqb (Cli.stderr run) EmptyString)
                   then Cli.stderr run
                   else Cli.errorText e)
        /\ (Cli.errorText e <> EmptyString ->
            Cli.Error result <> EmptyString))
  /\ (forall r0 basePrompt agents ctx w0 out results err' w2 events,
        executeChain (NewOrchestrator r0 i) w0 basePrompt agents ctx
        = ((out, results, err'), w2, events) ->
        conversionLogged ∉ events).
Proof.
  intros Hcmd Hinv. unfold Cli.InvokeAgent in Hinv. rewrite Hcmd in Hinv.
  split; [|split].
  - destruct (Cli.runErr run);
      destruct (negb (String.eqb (Cli.stdout run) EmptyString));
      try destruct (Cli.jsonRaw (Cli.stdout run));
      now injection Hinv as _ <- _ _.
  - intros e He. rewrite He in Hinv.
    assert (Hres :
              Cli.Success result = false
              /\ Cli.Error result
                 = (if Cli.deadlineExceeded run
                    then "agent invocation timed out after "
                         +:+ Cli.showDuration (Cli.timeout i)
                    else if negb (String.eqb (Cli.stderr run) EmptyString)
                         then Cli.stderr run
                         else Cli.errorText e)).
    { destruct (negb (String.eqb (Cli.stdout run) EmptyString));
        try destruct (Cli.jsonRaw (Cli.stdout run));
        injection Hinv as <- _ _ _; split; reflexivity. }
    destruct Hres as [Hs Herr]. repeat split; [exact Hs | exact Herr |].
    intros Htext. rewrite Herr.
    destruct (Cli.deadlineExceeded run); [discriminate|].
    destruct (String.eqb (Cli.stderr run) EmptyString) eqn:E; cbn [negb];
      [exact Htext|]. now apply String.eqb_neq in E.
  - intros r0 basePrompt agents ctx w0 out results err' w2 events Hrun.
    unfold executeChain in Hrun.
    eapply cli_chain_never_converts; [exact Hrun|]. apply not_elem_of_nil.
Qed.


End CliInvoker.

(** C9, as the code has it.  For the input ["Fix the thing"] the report of
    [RunWithAuto] carries an evaluation that is not clear, with the
    confidence 0.7 - 0.2 + 0.1 (about 0.6: above 0.5, below the threshold
    0.7), and the refined prompt "Fix the thing for correctness and best
    practices", which differs from the input. *)
Theorem fix_the_thing_is_refined {World : Type} (c : Collaborator World)
  (r0 : Agents.Registry) (visit1 visit2 : list (string * list string))
  (w w1 : World) (state : ContextState) (err : option Error)
  (events : list Event) :
  RunWithAuto (mkOrchestrator World r0 c Prompt.NewEvaluator) visit1 visit2 w
    "Fix the thing"
  = ((state, err), w1, events) ->
  Prompt.IsClear (EvaluationFeedback state) = false
  /\ Prompt.Confidence (EvaluationFeedback state) = (0.7 - 0.2 + 0.1)%float
  /\ (Prompt.Confidence (EvaluationFeedback state) <=? 0.5)%float = false
  /\ (Prompt.Confidence (EvaluationFeedback state) <? 0.7)%float = true
  /\ RefinedPrompt state = "Fix the thing for correctness and best practices"
  /\ RefinedPrompt state <> "Fix the thing".
Proof.
  intros Hrun.
  set (o := mkOrchestrator World r0 c Prompt.NewEvaluator) in *.
  destruct (executeChain o w
              (Prompt.RefinedPrompt
                 (Prompt.Evaluate visit1 (evaluator o) "Fix the thing"))
              (autoSelection o visit2
                 (Prompt.RefinedPrompt
                    (Prompt.Evaluate visit1 (evaluator o) "Fix the thing")))
              zeroContextState) as [[[[out results] err'] w2] written] eqn:E.
  destruct (RunWithAuto_run o _ _ _ _ _ _ _ _ _ E) as (events' & Hauto & _).
  rewrite Hauto in Hrun. injection Hrun as <- _ _ _.
  assert (Hstate :
            EvaluationFeedback
              match err' with
              | Some _ => autoState o visit1 visit2 "Fix the thing"
              | None =>
                  setFinalOutput out
                    (setAgentResults results
                       (autoState o visit1 visit2 "Fix the thing"))
              end
            = Prompt.Evaluate visit1 Prompt.NewEvaluator "Fix the thing"
            /\ RefinedPrompt
                 match err' with
                 | Some _ => autoState o visit1 visit2 "Fix the thing"
                 | None =>
                     setFinalOutput out
                       (setAgentResults results
                          (autoState o visit1 visit2 "Fix the thing"))
                 end
               = Prompt.RefinedPrompt
                   (Prompt.Evaluate visit1 Prompt.NewEvaluator "Fix the thing"))
    by (destruct err'; split; reflexivity).
  destruct Hstate as [-> ->]. clear.
  rewrite PromptFacts.Evaluate_nonempty by (vm_compute; discriminate).
  cbn [Prompt.IsClear Prompt.Confidence Prompt.RefinedPrompt].
  repeat split; try (vm_compute; reflexivity). vm_compute. discriminate.
Qed.

(** ** The claims at concrete runs *)

Import Examples.


Lemma explicit_chain_unknown_name_witness :
  (exists name, name ∈ ["code-reviewer"; "unknown"]
                /\ Agents.Get (registry cancelO) name = None)
  /\ exists name state,
       RunWithExplicitChain cancelO Prompt.domainKeywords 0%nat "Review code"
         ["code-reviewer"; "unknown"]
       = ((state, Some (NotFoundError name)), 0%nat, [])
       /\ name ∈ ["code-reviewer"; "unknown"]
       /\ Agents.Get (registry cancelO) name = None
       /\ AgentResults state = [] /\ FinalOutput state = EmptyString.
Proof.
  assert (H : exists name, name ∈ ["code-reviewer"; "unknown"]
                           /\ Agents.Get (registry cancelO) name = None).
  { exists "unknown". split; [|reflexivity].
    apply elem_of_cons. right. apply elem_of_cons. now left. }
  split; [exact H|].
  exact (explicit_chain_unknown_name cancelO Prompt.domainKeywords 0%nat
           "Review code" ["code-reviewer"; "unknown"] H).
Defined.

Lemma cancellation_at_step_boundary_witness :
  done (invoker cancelO) 1%nat = Some Cli.Canceled
  /\ (executeChain cancelO 0%nat "Review code" [reviewer; tester]
        zeroContextState).1.1.2
     = Some (CancellationError Cli.Canceled)
  /\ length (executeChain cancelO 0%nat "Review code" [reviewer; tester]
               zeroContextState).1.1.1.2 = 1%nat.
Proof.
  split; [reflexivity|].
  pose proof (cancellation_at_step_boundary cancelO "Review code" [reviewer]
                tester [] 0%nat 1%nat _ _ _ Cli.Canceled eq_refl eq_refl)
    as (H & Hlen & _).
  cbn [app] in H. rewrite H. split; [reflexivity | exact Hlen].
Defined.

(** C1 does not hold as stated.  One outcome is recorded when the context
    is found cancelled, yet the report [RunWithAuto] returns with the
    cancellation error holds no outcome, and its final output is empty:
    nothing was synthesized over the recorded outcome. *)
Lemma cancellation_report_counterexample :
  let userPrompt := "Review the code and add unit tests" in
  let '((state, err), _, _) :=
    RunWithAuto cancelO Prompt.domainKeywords Prompt.domainKeywords 0%nat
      userPrompt in
  let '((_, recordedOutcomes, _), _, _) :=
    executeChain cancelO 0%nat userPrompt [reviewer; tester]
      zeroContextState in
  err = Some (CancellationError Cli.Canceled)
  /\ SelectedAgents state = ["code-reviewer"; "test-generator"]
  /\ recordedOutcomes = [succeeded "code-reviewer" "42"]
  /\ AgentResults state = []
  /\ length (AgentResults state) <> length recordedOutcomes
  /\ FinalOutput state = EmptyString
  /\ FinalOutput state <> synthesizeOutput zeroContextState recordedOutcomes.
Proof. vm_compute. repeat split; discriminate. Qed.

Lemma InvokeAgent_returns_no_error_witness :
  let crash :=
    Cli.mkCmdRun 0 1 (Some (Cli.ExitError 1 "exit status 1")) EmptyString
      "agent crashed" false in
  let call :=
    @Cli.InvokeAgent nat firstRunFails (Cli.NewInvoker 300) 0%nat
      "code-reviewer" "Review code" in
  @Cli.runCopilot nat firstRunFails 0%nat
    ["--agent=" +:+ "code-reviewer"; "--prompt=" +:+ "Review code"]
  = (crash, 1%nat)
  /\ call.1.1.2 = None
  /\ Cli.Success call.1.1.1 = false
  /\ Cli.Error call.1.1.1 = "agent crashed".
Proof.
  intros crash call. split; [reflexivity|].
  destruct (@InvokeAgent_returns_no_error nat firstRunFails
              (Cli.NewInvoker 300) 0%nat 1%nat 1%nat "code-reviewer"
              "Review code" crash _ _ _ eq_refl eq_refl) as (H1 & H2 & _).
  destruct (H2 _ eq_refl) as (Hs & He & _).
  split; [exact H1|]. split; [exact Hs | exact He].
Defined.


Lemma fix_the_thing_is_refined_witness :
  let run :=
    RunWithAuto cancelO Prompt.domainKeywords Prompt.domainKeywords 0%nat
      "Fix the thing" in
  Prompt.IsClear (EvaluationFeedback run.1.1.1) = false
  /\ RefinedPrompt run.1.1.1 = "Fix the thing for correctness and best practices".
Proof.
  intros run. subst run.
  destruct (RunWithAuto cancelO Prompt.domainKeywords Prompt.domainKeywords
              0%nat "Fix the thing") as [[[state err] w1] events] eqn:E.
  destruct (fix_the_thing_is_refined (scripted 1 allSucceed) testRegistry
              Prompt.domainKeywords Prompt.domainKeywords 0%nat w1 state err
              events E) as (H1 & _ & _ & _ & H2 & _).
  split; [exact H1 | exact H2].
Defined.

(** C9 does not hold as stated: the confidence of ["Fix the thing"] is
    0.7 - 0.2 + 0.1, which is not at most 0.5. *)
Lemma fix_the_thing_confidence_counterexample :
  let '((state, _), _, _) :=
    RunWithAuto cancelO Prompt.domainKeywords Prompt.domainKeywords 0%nat
      "Fix the thing" in
  Prompt.Confidence (EvaluationFeedback state) = (0.7 - 0.2 + 0.1)%float
  /\ (Prompt.Confidence (EvaluationFeedback state) <=? 0.5)%float = false
  /\ Prompt.DetectedIssues (EvaluationFeedback state)
     = ["Prompt uses vague terms (e.g., 'it', 'this', 'module')"].
Proof. vm_compute. repeat split. Qed.

End OrchestratorFacts.

(* ===================================================================== *)
(** * Facts about the registry *)
(* ===================================================================== *)

Module RegistryFacts.
Import Agents RankSpec AgentsFacts.

(** X1.  [Add] returns an error exactly when the name of the agent is
    empty or [Get] already finds an agent under that name; a call that
    returns an error leaves the registry as it was, so that [Get] still
    returns the agent registered first. *)
Theorem Add_rejects_empty_or_duplicate (r : Registry) (a : Agent) :
  ((Add r a).2 <> None
   <-> Name a = EmptyString \/ is_Some (Get r (Name a)))
  /\ ((Add r a).2 <> None -> (Add r a).1 = r)
  /\ (forall b, Get r (Name a) = Some b ->
                Get (Add r a).1 (Name a) = Some b).
Proof.
  unfold Add, Get.
  destruct (String.eqb (Name a) EmptyString) eqn:E.
  - apply String.eqb_eq in E. cbn. repeat split; auto; discriminate.
  - apply String.eqb_neq in E.
    destruct (agents r !! Name a) as [b|] eqn:Hb; cbn.
    + split; [split; [intros _; right; eauto | discriminate]|].
      split; [reflexivity|]. intros b' [= <-]. exact Hb.
    + split; [split; [congruence | intros [?|[? ?]]; congruence]|].
      split; [congruence | discriminate].
Qed.

Lemma omap_lookup_ext {A B : Type} (f g : A -> option B) (l : list A) :
  (forall x, x ∈ l -> f x = g x) -> omap f l = omap g l.
Proof.
  induction l as [|x l IH]; intros H; [reflexivity|]. cbn [omap list_omap].
  rewrite (H x) by (apply elem_of_cons; now left).
  rewrite IH; [reflexivity|]. intros y Hy. apply H, elem_of_cons. now right.
Qed.

Lemma Add_appends (r : Registry) (a : Agent) :
  registryOk r -> (Add r a).2 = None -> All (Add r a).1 = All r ++ [a].
Proof.
  intros (Hnd & Hkeys & Hnames). unfold Add, All.
  destruct (String.eqb (Name a) EmptyString); [discriminate|].
  destruct (agents r !! Name a) as [b|] eqn:Hb; [discriminate|].
  intros _. cbn [fst agents order].
  rewrite omap_app. cbn [omap list_omap]. rewrite lookup_insert_eq.
  f_equal. apply omap_lookup_ext. intros name Hin.
  apply lookup_insert_ne. intros <-.
  apply Hkeys in Hin as [? ?]. congruence.
Qed.

(** X2.  In a registry made by [NewRegistry] and [Add], a call of [Add]
    that returns no error stores the agent under its name, leaves every
    other name as it was, and puts the agent last in the list [All]
    returns. *)
Theorem Add_accepted (r : Registry) (a : Agent) :
  registryOk r -> (Add r a).2 = None ->
  Get (Add r a).1 (Name a) = Some a
  /\ (forall name, name <> Name a -> Get (Add r a).1 name = Get r name)
  /\ All (Add r a).1 = All r ++ [a]
  /\ registryOk (Add r a).1.
Proof.
  intros Hok Hnone.
  split; [|split; [|split; [now apply Add_appends | now apply Add_ok]]];
    unfold Add, Get in *;
    destruct (String.eqb (Name a) EmptyString); try discriminate;
    destruct (agents r !! Name a) as [b|] eqn:Hb; try discriminate;
    cbn [fst agents].
  - apply lookup_insert_eq.
  - intros name Hne. now apply lookup_insert_ne.
Qed.

Lemma Add_keeps (r : Registry) (a : Agent) (name : string) :
  Get (Add r a).1 name
  = match Get r name with
    | Some b => Some b
    | None =>
        if String.eqb name EmptyString then None
        else if String.eqb (Name a) name then Some a else None
    end.
Proof.
  unfold Add, Get.
  destruct (String.eqb (Name a) EmptyString) eqn:E.
  - apply String.eqb_eq in E. cbn [fst]. rewrite E.
    destruct (agents r !! name); [reflexivity|].
    destruct (String.eqb name EmptyString) eqn:E'; [reflexivity|].
    rewrite String.eqb_sym, E'. reflexivity.
  - apply String.eqb_neq in E.
    destruct (agents r !! Name a) as [b|] eqn:Hb; cbn [fst agents].
    + destruct (agents r !! name) eqn:Hn; [reflexivity|].
      destruct (String.eqb name EmptyString); [reflexivity|].
      destruct (String.eqb (Name a) name) eqn:E'; [|reflexivity].
      apply String.eqb_eq in E'. congruence.
    + destruct (decide (Name a = name)) as [<-|Hne].
      * rewrite lookup_insert_eq, Hb.
        rewrite (proj2 (String.eqb_neq _ _) E), String.eqb_refl. reflexivity.
      * rewrite lookup_insert_ne by exact Hne.
        destruct (agents r !! name); [reflexivity|].
        rewrite (proj2 (String.eqb_neq _ _) Hne).
        now destruct (String.eqb name EmptyString).
Qed.

Lemma foldl_Add_Get (adds : list Agent) (name : string) :
  forall r,
    Get (foldl (fun r a => (Add r a).1) r adds) name
    = match Get r name with
      | Some b => Some b
      | None =>
          if String.eqb name EmptyString then None
          else List.find (fun a => String.eqb (Name a) name) adds
      end.
Proof.
  induction adds as [|a adds IH]; intros r; cbn [foldl List.find].
  - destruct (Get r name); [reflexivity|].
    now destruct (String.eqb name EmptyString).
  - rewrite IH, Add_keeps. destruct (Get r name); [reflexivity|].
    destruct (String.eqb name EmptyString); [reflexivity|].
    now destruct (String.eqb (Name a) name).
Qed.

Lemma registered_Get (adds : list Agent) (name : string) :
  Get (registered adds) name
  = if String.eqb name EmptyString then None
    else List.find (fun a => String.eqb (Name a) name) adds.
Proof.
  unfold registered. rewrite foldl_Add_Get. unfold Get, NewRegistry. cbn.
  now rewrite lookup_empty.
Qed.

(** X3.  After a sequence of [Add] calls on a new registry, the calls that
    fail being ignored as the discovery does, [Get] returns for a name the
    first agent of the sequence that has this name, and nothing for the
    empty name: a later agent never replaces an earlier one. *)
Theorem registered_first_wins (adds : list Agent) (name : string) :
  Get (registered adds) name
  = (if String.eqb name EmptyString then None
     else List.find (fun a => String.eqb (Name a) name) adds)
  /\ (forall a, Get (registered adds) name = Some a ->
                Name a = name /\ a ∈ adds).
Proof.
  split; [apply registered_Get|]. intros a. rewrite registered_Get.
  destruct (String.eqb name EmptyString); [discriminate|]. intros Ha.
  apply find_some in Ha as [Hin Hname]. apply String.eqb_eq in Hname.
  split; [exact Hname | now apply list_elem_of_In].
Qed.

(** X4.  [All] lists the registry: after any sequence of [Add] calls the
    names of the agents it returns are pairwise distinct, an agent is in
    the list exactly when [Get] returns it for its name, every agent of
    the list has a name that is not empty and was given to [Add], and the
    list is as long as the map has entries. *)
Theorem All_lists_registry (adds : list Agent) :
  let r := registered adds in
  NoDup (map Name (All r))
  /\ (forall a, a ∈ All r <-> Get r (Name a) = Some a)
  /\ (forall a, a ∈ All r -> Name a <> EmptyString /\ a ∈ adds)
  /\ length (All r) = size (agents r).
Proof.
  intros r. pose proof (registered_ok adds) as Hok. fold r in Hok.
  pose proof (All_names r Hok) as Hnames.
  destruct Hok as (Hnd & Hkeys & Hstored).
  assert (Hiff : forall a, a ∈ All r <-> Get r (Name a) = Some a).
  { intros a. unfold All, Get. rewrite list_elem_of_omap. split.
    - intros (name & Hin & Ha). now rewrite (Hstored _ _ Ha).
    - intros Ha. exists (Name a). split; [|exact Ha]. apply Hkeys. eauto. }
  split; [now rewrite Hnames|]. split; [exact Hiff|]. split.
  - intros a Ha. apply Hiff in Ha. subst r.
    rewrite registered_Get in Ha.
    destruct (String.eqb (Name a) EmptyString) eqn:E; [discriminate|].
    apply String.eqb_neq in E. split; [exact E|].
    apply find_some in Ha as [Hin _]. now apply list_elem_of_In.
  - rewrite <- (length_map Name), Hnames.
    rewrite <- size_dom.
    assert (Hdom : dom (agents r) = list_to_set (order r)).
    { apply set_eq. intros name. rewrite elem_of_dom, elem_of_list_to_set.
      symmetry. apply Hkeys. }
    rewrite Hdom. symmetry. now apply size_list_to_set.
Qed.

Import Examples.

Lemma Add_accepted_witness :
  Get (Add (registered [reviewer]) tester).1 "test-generator" = Some tester
  /\ All (Add (registered [reviewer]) tester).1
     = All (registered [reviewer]) ++ [tester].
Proof.
  destruct (Add_accepted (registered [reviewer]) tester)
    as (Hget & _ & Hall & _); [apply registered_ok | reflexivity |].
  split; [exact Hget | exact Hall].
Defined.

End RegistryFacts.

(* ===================================================================== *)
(** * Facts about the ranking *)
(* ===================================================================== *)

Module RankingFacts.
Import Agents RankSpec AgentsFacts.

Lemma specScore_positive (keywords : list string) (a : Agent) :
  (0 < specScore keywords a)%Z
  <-> exists kw, kw ∈ Keywords a /\ kw ∈ keywords.
Proof.
  unfold specScore, countMatches.
  induction (Keywords a) as [|k ks IH]; cbn [List.filter length].
  - split; [lia|]. intros (kw & Hin & _). now apply elem_of_nil in Hin.
  - destruct (bool_decide (k ∈ keywords)) eqn:E; cbn [length].
    + apply bool_decide_eq_true in E. split; [|lia].
      intros _. exists k. split; [apply elem_of_cons; now left | exact E].
    + apply bool_decide_eq_false in E. rewrite IH. split.
      * intros (kw & Hin & Hkw). exists kw. split; [|exact Hkw].
        apply elem_of_cons. now right.
      * intros (kw & Hin & Hkw). exists kw. split; [|exact Hkw].
        apply elem_of_cons in Hin as [->|Hin]; [contradiction | exact Hin].
Qed.

Lemma MatchKeywords_positive (r : Registry) (keywords : list string)
  (a : Agent) :
  a ∈ MatchKeywords r keywords
  <-> a ∈ All r /\ (0 < specScore keywords a)%Z.
Proof.
  destruct (MatchKeywords_ranked r keywords) as [Hperm _].
  rewrite Hperm, !list_elem_of_In, filter_In, Z.ltb_lt. reflexivity.
Qed.

Lemma MatchKeywords_nil_keywords (r : Registry) : MatchKeywords r [] = [].
Proof.
  destruct (MatchKeywords r []) as [|a rest] eqn:E; [reflexivity|].
  assert (Ha : a ∈ MatchKeywords r [])
    by (rewrite E; apply elem_of_cons; now left).
  apply MatchKeywords_positive in Ha as [_ Ha].
  apply specScore_positive in Ha as (kw & _ & Hkw).
  now apply elem_of_nil in Hkw.
Qed.

(** X5.  [MatchKeywords] returns the empty list for an empty list of
    keywords and for an empty registry, and it never returns an agent
    that has no keywords. *)
Theorem MatchKeywords_nothing_to_match (r : Registry)
  (keywords : list string) :
  MatchKeywords r [] = []
  /\ MatchKeywords NewRegistry keywords = []
  /\ (forall a, a ∈ MatchKeywords r keywords -> Keywords a <> []).
Proof.
  split; [apply MatchKeywords_nil_keywords|]. split; [reflexivity|].
  intros a Ha Hnil. apply MatchKeywords_positive in Ha as [_ Ha].
  apply specScore_positive in Ha as (kw & Hkw & _). rewrite Hnil in Hkw.
  now apply elem_of_nil in Hkw.
Qed.

(** X6.  [MatchKeywords] returns exactly the agents of [All] that have one
    of the input keywords among their own (the comparison is on the exact
    strings); the first agent it returns scores at least as much as every
    registered agent; and it returns at most as many agents as are
    registered. *)
Theorem MatchKeywords_members_best_first (r : Registry)
  (keywords : list string) :
  (forall a, a ∈ MatchKeywords r keywords
             <-> a ∈ All r /\ exists kw, kw ∈ Keywords a /\ kw ∈ keywords)
  /\ (forall best rest,
         MatchKeywords r keywords = best :: rest ->
         forall a, a ∈ All r ->
                   (specScore keywords a <= specScore keywords best)%Z)
  /\ (length (MatchKeywords r keywords) <= length (All r))%nat.
Proof.
  split; [|split].
  - intros a. now rewrite MatchKeywords_positive, specScore_positive.
  - intros best rest Heq a Ha.
    destruct (MatchKeywords_ranked r keywords) as [_ Hsorted].
    assert (Hbest : (0 < specScore keywords best)%Z).
    { apply (MatchKeywords_positive r). rewrite Heq.
      apply elem_of_cons. now left. }
    destruct (Z.ltb_spec 0 (specScore keywords a)) as [Hpos|Hzero]; [|lia].
    assert (Hin : a ∈ MatchKeywords r keywords)
      by (apply MatchKeywords_positive; now split).
    rewrite Heq in Hin, Hsorted.
    apply elem_of_cons in Hin as [->|Hin]; [lia|].
    apply StronglySorted_inv in Hsorted as [_ Hle].
    rewrite Forall_forall in Hle. apply (Hle a Hin).
  - destruct (MatchKeywords_ranked r keywords) as [Hperm _].
    rewrite Hperm. apply filter_length_le.
Qed.

(** X7.  [MatchKeywords] reads its input as a set: two lists with the
    same keywords, in whatever order and however often repeated, give the
    same result. *)
Theorem MatchKeywords_keyword_set (r : Registry)
  (keywords1 keywords2 : list string) :
  (forall kw, kw ∈ keywords1 <-> kw ∈ keywords2) ->
  MatchKeywords r keywords1 = MatchKeywords r keywords2.
Proof.
  intros Hsame. unfold MatchKeywords.
  replace (keywordSetOf keywords2) with (keywordSetOf keywords1);
    [reflexivity|].
  apply map_eq. intros kw. unfold keywordSetOf. rewrite !keywordSet_lookup.
  destruct (decide (kw ∈ keywords1)) as [H1|H1].
  - rewrite decide_True by now apply Hsame. reflexivity.
  - rewrite decide_False by (intros H2; now apply H1, Hsame). reflexivity.
Qed.

Lemma MatchKeywords_keyword_set_witness :
  MatchKeywords Examples.testRegistry ["go"; "quality"; "go"]
  = MatchKeywords Examples.testRegistry ["quality"; "go"].
Proof.
  apply (MatchKeywords_keyword_set Examples.testRegistry
           ["go"; "quality"; "go"] ["quality"; "go"]).
  intros kw. rewrite !elem_of_cons. tauto.
Defined.

Lemma score_fold (searchKeywords : gmap string bool)
  (agentKeywords : list string) :
  forall acc : Z,
    foldl (fun score kw =>
             if default false (searchKeywords !! kw) then (score + 2)%Z
             else score) acc agentKeywords
    = (acc + 2 * Z.of_nat
               (length (List.filter
                          (fun kw => default false (searchKeywords !! kw))
                          agentKeywords)))%Z.
Proof.
  induction agentKeywords as [|kw rest IH]; intros acc;
    cbn [foldl List.filter length]; [lia|].
  rewrite IH. destruct (default false (searchKeywords !! kw));
    cbn [length]; lia.
Qed.

(** X8.  [calculateMatchScore] is 2 for every keyword of the agent that
    the search map holds with the value true, a keyword listed twice
    counting twice; the two early returns change nothing; the score lies
    between 0 and twice the number of the agent's keywords. *)
Theorem calculateMatchScore_counts (agentKeywords : list string)
  (searchKeywords : gmap string bool) :
  let hits :=
    List.filter (fun kw => default false (searchKeywords !! kw))
      agentKeywords in
  calculateMatchScore agentKeywords searchKeywords
  = (2 * Z.of_nat (length hits))%Z
  /\ (0 <= calculateMatchScore agentKeywords searchKeywords
      <= 2 * Z.of_nat (length agentKeywords))%Z.
Proof.
  intros hits.
  assert (Heq : calculateMatchScore agentKeywords searchKeywords
                = (2 * Z.of_nat (length hits))%Z).
  { unfold calculateMatchScore, hits.
    destruct (length agentKeywords =? 0)%nat eqn:Ea.
    { apply Nat.eqb_eq in Ea.
      destruct agentKeywords; [reflexivity|discriminate]. }
    destruct (size searchKeywords =? 0)%nat eqn:Es; cbn [orb].
    - apply Nat.eqb_eq, map_size_empty_iff in Es. subst searchKeywords.
      clear Ea. induction agentKeywords as [|kw rest IH]; [reflexivity|].
      cbn [List.filter]. rewrite lookup_empty. exact IH.
    - rewrite score_fold. lia. }
  split; [exact Heq|]. rewrite Heq. subst hits.
  pose proof (filter_length_le
                (fun kw => default false (searchKeywords !! kw)) agentKeywords).
  lia.
Qed.

End RankingFacts.

(* ===================================================================== *)
(** * Facts about the evaluation of a prompt *)
(* ===================================================================== *)

Module EvaluatorFacts.
Import GoStrings Regexp Prompt Score GoStringsFacts PromptFacts EvaluatorSpec.

(** ** Blank prompts *)

Lemma trimRight_blank (s : string) :
  trimRight s = EmptyString <-> blank s = true.
Proof.
  induction s as [|c s IH]; cbn [trimRight blank]; [tauto|].
  destruct (trimRight s) as [|d t].
  - destruct (isSpace c); cbn [andb]; [|split; discriminate].
    split; intros _; [now apply IH | reflexivity].
  - split; [discriminate|]. intros H. apply andb_true_iff in H as [_ H].
    apply IH in H. discriminate.
Qed.

Lemma blank_trimLeft (s : string) : blank (trimLeft s) = blank s.
Proof.
  induction s as [|c s IH]; cbn [trimLeft blank]; [reflexivity|].
  destruct (isSpace c) eqn:E; cbn [andb blank]; [exact IH|]. now rewrite E.
Qed.

Lemma TrimSpace_blank (s : string) :
  TrimSpace s = EmptyString <-> blank s = true.
Proof. unfold TrimSpace. now rewrite trimRight_blank, blank_trimLeft. Qed.


Lemma Evaluate_of_blank (visit : list (string * list string))
  (prompt : string) :
  blank prompt = true ->
  Evaluate visit NewEvaluator prompt = emptyEvaluation prompt.
Proof.
  intros E. apply TrimSpace_blank in E. apply (Evaluate_empty visit prompt E).
Qed.



(** ** The decision *)




(** ** The refined prompt *)

Lemma HasPrefix_refl_append (a b : string) : HasPrefix (a +:+ b) a = true.
Proof.
  induction a as [|c a IH]; [reflexivity|].
  rewrite append_cons. cbn [HasPrefix]. now rewrite Ascii.eqb_refl, IH.
Qed.







(** ** Action verbs *)





(** ** Keywords *)







Lemma isSpace_toLowerByte (c : ascii) : isSpace (toLowerByte c) = isSpace c.
Proof. destruct c as [[] [] [] [] [] [] [] []]; reflexivity. Qed.

Lemma blank_ToLower (s : string) : blank (ToLower s) = blank s.
Proof.
  induction s as [|c s IH]; [reflexivity|]. cbn [ToLower blank].
  now rewrite isSpace_toLowerByte, IH.
Qed.

Lemma matchHere_blank (r : regex) :
  startsWithWord r = true ->
  forall prev s k, blank s = true -> matchHere r prev s k = false.
Proof.
  induction r as [w|r1 IH1 r2 IH2| | |]; cbn [startsWithWord]; try discriminate.
  - destruct w as [|c w]; [discriminate|]. intros Hc prev s k Hs.
    cbn [matchHere eat]. destruct s as [|b s]; [reflexivity|].
    cbn [blank] in Hs. apply andb_true_iff in Hs as [Hb _].
    destruct (Ascii.eqb c b) eqn:E; [|reflexivity].
    apply Ascii.eqb_eq in E. subst b. rewrite Hb in Hc. discriminate.
  - intros H prev s k Hs. apply andb_true_iff in H as [H1 H2].
    cbn [matchHere]. now rewrite IH1, IH2.
Qed.

Lemma MatchString_blank (r : regex) (s : string) :
  startsWithWord r = true -> blank s = true -> MatchString r s = false.
Proof.
  intros Hr. unfold MatchString. generalize (@None ascii).
  induction s as [|c s IH]; intros prev Hs; cbn [search].
  - now rewrite matchHere_blank.
  - rewrite matchHere_blank by assumption. cbn [blank] in Hs.
    apply andb_true_iff in Hs as [_ Hs]. now apply IH.
Qed.

Lemma domainKeywords_start_with_word :
  Forall (fun entry => startsWithWord (MustCompile entry.1) = true)
    domainKeywords.
Proof. repeat constructor. Qed.

(** No rule matches a blank prompt. *)
Lemma ExtractKeywords_blank (visit : list (string * list string))
  (prompt : string) :
  range_order visit -> blank prompt = true ->
  ExtractKeywords visit prompt = [].
Proof.
  intros Hvisit Hblank. rewrite ExtractKeywords_matchingTags by exact Hvisit.
  assert (Hall : Forall (fun entry =>
                           startsWithWord (MustCompile entry.1) = true) visit).
  { unfold range_order in Hvisit. rewrite Hvisit.
    apply domainKeywords_start_with_word. }
  clear Hvisit. unfold matchingTags.
  induction Hall as [|entry visit' Hentry _ IH]; [reflexivity|].
  cbn [List.filter]. rewrite MatchString_blank; [exact IH|exact Hentry|].
  now rewrite blank_ToLower.
Qed.

End EvaluatorFacts.

(* ===================================================================== *)
(** * Facts about the selection and the runs *)
(* ===================================================================== *)

Module RunFacts.
Import GoStrings GoStringsFacts Orchestrator ChainSpec OrchestratorFacts.
Import RankSpec EvaluatorSpec.

Section Selection.
Context {World : Type}.
Variable o : Orchestrator World.

Lemma selectAgents_take (keywords : list string) (maxCount : nat) :
  selectAgents o keywords maxCount
  = take maxCount (Agents.MatchKeywords (registry o) keywords).
Proof.
  unfold selectAgents.
  destruct (Nat.ltb_spec maxCount
              (length (Agents.MatchKeywords (registry o) keywords)));
    [reflexivity|]. now rewrite take_ge.
Qed.

Lemma selectTopAgents_take (count : nat) :
  selectTopAgents o count = take count (Agents.All (registry o)).
Proof.
  unfold selectTopAgents.
  destruct (Nat.ltb_spec count (length (Agents.All (registry o))));
    [reflexivity|]. now rewrite take_ge.
Qed.

Lemma autoSelection_cases (visit : list (string * list string))
  (refined : string) :
  autoSelection o visit refined
  = match Agents.MatchKeywords (registry o)
            (Prompt.ExtractKeywords visit refined) with
    | [] => take 3 (Agents.All (registry o))
    | _ =>
        take 2 (Agents.MatchKeywords (registry o)
                  (Prompt.ExtractKeywords visit refined))
    end.
Proof.
  unfold autoSelection. rewrite selectAgents_take, selectTopAgents_take.
  now destruct (Agents.MatchKeywords _ _) as [|a [|b rest]].
Qed.

Lemma autoState_selected (visit1 visit2 : list (string * list string))
  (userPrompt : string) (state : ContextState) (out : string)
  (results : list Cli.InvocationResult) (err : option Error) :
  state = match err with
          | Some _ => autoState o visit1 visit2 userPrompt
          | None =>
              setFinalOutput out
                (setAgentResults results
                   (autoState o visit1 visit2 userPrompt))
          end ->
  EvaluationFeedback state
  = Prompt.Evaluate visit1 (evaluator o) userPrompt
  /\ RefinedPrompt state
     = Prompt.RefinedPrompt (Prompt.Evaluate visit1 (evaluator o) userPrompt)
  /\ SelectedAgents state
     = map Agents.Name (autoSelection o visit2 (RefinedPrompt state))
  /\ (err = None -> AgentResults state = results /\ FinalOutput state = out).
Proof.
  intros ->. destruct err; cbn; repeat split; try reflexivity; discriminate.
Qed.

(** The report and the events of an automatic run, from those of its
    chain. *)
Lemma RunWithAuto_report (visit1 visit2 : list (string * list string))
  (w w1 : World) (userPrompt : string) (state : ContextState)
  (err : option Error) (events : list Event) :
  RunWithAuto o visit1 visit2 w userPrompt = ((state, err), w1, events) ->
  let refined :=
    Prompt.RefinedPrompt (Prompt.Evaluate visit1 (evaluator o) userPrompt) in
  exists out results written,
    executeChain o w refined (autoSelection o visit2 refined) zeroContextState
    = ((out, results, err), w1, written)
    /\ invokedAgents events = invokedAgents written
    /\ prompts events = prompts written
    /\ EvaluationFeedback state
       = Prompt.Evaluate visit1 (evaluator o) userPrompt
    /\ RefinedPrompt state = refined
    /\ SelectedAgents state
       = map Agents.Name (autoSelection o visit2 refined)
    /\ (err = None -> AgentResults state = results).
Proof.
  intros Hrun refined.
  destruct (executeChain o w refined (autoSelection o visit2 refined)
              zeroContextState) as [[[[out results] err'] w2] written] eqn:Hchain.
  destruct (RunWithAuto_run o visit1 visit2 w w2 userPrompt out results err'
              written Hchain) as (events' & Heq & Hinv & Hprompts).
  rewrite Heq in Hrun. injection Hrun as Hstate <- <- <-.
  symmetry in Hstate.
  destruct (autoState_selected _ _ _ _ _ _ _ Hstate)
    as (Hfeedback & Hrefined & Hselected & Hresults).
  fold refined in Hrefined. rewrite Hrefined in Hselected.
  exists out, results, written. repeat split; try assumption.
  intros H. now apply Hresults.
Qed.

(** X15.  An automatic run selects by the keywords of the refined prompt:
    the two best matches when there is a match, the first three
    registered agents when there is none; in both cases at most three
    agents, fewer when the registry is short of them.  The agents it
    invokes are the selected ones, in the order of the selection, up to
    the point where the run was cancelled; when no error is returned,
    every selected agent was invoked and has its outcome in the report. *)
Theorem RunWithAuto_selects (visit1 visit2 : list (string * list string))
  (w w1 : World) (userPrompt : string) (state : ContextState)
  (err : option Error) (events : list Event) :
  RunWithAuto o visit1 visit2 w userPrompt = ((state, err), w1, events) ->
  let matched :=
    Agents.MatchKeywords (registry o)
      (Prompt.ExtractKeywords visit2 (RefinedPrompt state)) in
  RefinedPrompt state
  = Prompt.RefinedPrompt (Prompt.Evaluate visit1 (evaluator o) userPrompt)
  /\ SelectedAgents state
     = map Agents.Name
         (match matched with
          | [] => take 3 (Agents.All (registry o))
          | _ => take 2 matched
          end)
  /\ (length (SelectedAgents state) <= 3)%nat
  /\ (exists k, invokedAgents events = take k (SelectedAgents state))
  /\ (err = None ->
      invokedAgents events = SelectedAgents state
      /\ length (AgentResults state) = length (SelectedAgents state)).
Proof.
  intros Hrun matched.
  destruct (RunWithAuto_report _ _ _ _ _ _ _ _ Hrun)
    as (out & results & written & Hchain & Hinv & _ & _ & Hrefined
        & Hselected & Hresults).
  unfold executeChain in Hchain.
  apply chainLoop_shape in Hchain
    as ((more & Hmore & Hlen & Hfull & Hinvoked) & _ & _ & _ & _).
  cbn [app invokedAgents omap list_omap] in Hmore, Hinvoked. subst results.
  rewrite Hinv, Hinvoked, Hselected. subst matched. rewrite Hrefined.
  rewrite <- (autoSelection_cases visit2).
  split; [reflexivity|]. split; [reflexivity|]. split; [|split].
  - rewrite length_map, autoSelection_cases.
    destruct (Agents.MatchKeywords _ _); rewrite length_take; lia.
  - exists (length more). now rewrite <- firstn_map.
  - intros ->. rewrite (Hresults eq_refl), (Hfull eq_refl), take_ge by lia.
    split; [reflexivity|]. now rewrite length_map.
Qed.

(** X16.  An automatic run on a blank prompt does not stop at the
    evaluation: the prompt is evaluated as empty and stays as it is, no
    keyword is found, and the run falls back to the first three registered
    agents; when an agent is registered and the context is not cancelled
    at the start, an agent is invoked. *)
Theorem RunWithAuto_blank_prompt (visit1 visit2 : list (string * list string))
  (w w1 : World) (userPrompt : string) (state : ContextState)
  (err : option Error) (events : list Event) :
  evaluator o = Prompt.NewEvaluator ->
  blank userPrompt = true -> Prompt.range_order visit2 ->
  RunWithAuto o visit1 visit2 w userPrompt = ((state, err), w1, events) ->
  EvaluationFeedback state = emptyEvaluation userPrompt
  /\ RefinedPrompt state = userPrompt
  /\ SelectedAgents state
     = map Agents.Name (take 3 (Agents.All (registry o)))
  /\ (Agents.All (registry o) <> [] -> done (invoker o) w = None ->
      invokedAgents events <> []).
Proof.
  intros Hev Hblank Hvisit Hrun.
  destruct (RunWithAuto_report _ _ _ _ _ _ _ _ Hrun)
    as (out & results & written & Hchain & Hinv & _ & Hfeedback & Hrefined
        & Hselected & _).
  rewrite Hev, (EvaluatorFacts.Evaluate_of_blank visit1 userPrompt Hblank)
    in Hfeedback, Hrefined, Hselected, Hchain.
  cbn [Prompt.RefinedPrompt emptyEvaluation] in Hrefined, Hselected, Hchain.
  assert (Hsel : autoSelection o visit2 userPrompt
                 = take 3 (Agents.All (registry o))).
  { rewrite autoSelection_cases.
    rewrite (EvaluatorFacts.ExtractKeywords_blank visit2 userPrompt Hvisit
               Hblank).
    now rewrite RankingFacts.MatchKeywords_nil_keywords. }
  rewrite Hsel in Hselected, Hchain.
  split; [exact Hfeedback|]. split; [exact Hrefined|].
  split; [exact Hselected|].
  intros Hsome Hdone. rewrite Hinv.
  destruct (Agents.All (registry o)) as [|a rest]; [congruence|].
  change (take 3 (a :: rest)) with (a :: take 2 rest) in Hchain.
  unfold executeChain in Hchain.
  destruct (invokeAgent (invoker o) w (Agents.Name a)
              (buildAgentPrompt userPrompt a zeroContextState))
    as [[[r e] w2] logs] eqn:Hcall.
  rewrite (chainLoop_step o userPrompt a (take 2 rest) [] zeroContextState w
             w2 [] r e logs Hdone Hcall) in Hchain.
  apply chainLoop_shape in Hchain as (_ & (newer & ->) & _).
  unfold invokedAgents. rewrite !omap_app. cbn. discriminate.
Qed.

Lemma MatchKeywords_no_agents (keywords : list string) :
  Agents.All (registry o) = [] ->
  Agents.MatchKeywords (registry o) keywords = [].
Proof. intros H. unfold Agents.MatchKeywords. now rewrite H. Qed.

(** X17.  A chain of no agents never looks at the context.  An explicit
    run with an empty list of names, and an automatic run over an empty
    registry, invoke nothing and return no error, whether the context is
    cancelled or not; the final output is the report of zero agents, and
    the rationale of the automatic run says that no agent matched. *)
Theorem chain_of_no_agents :
  (forall visit w userPrompt,
      exists state,
        RunWithExplicitChain o visit w userPrompt [] = ((state, None), w, [])
        /\ SelectedAgents state = [] /\ AgentResults state = []
        /\ FinalOutput state = emptyReport)
  /\ (Agents.All (registry o) = [] ->
      forall visit1 visit2 w userPrompt,
      exists state events,
        RunWithAuto o visit1 visit2 w userPrompt = ((state, None), w, events)
        /\ invokedAgents events = []
        /\ SelectedAgents state = [] /\ AgentResults state = []
        /\ SelectionRationale state = "No agents matched the prompt keywords"
        /\ FinalOutput state = emptyReport).
Proof.
  split.
  - intros visit w userPrompt. eexists. split; [reflexivity|].
    repeat split.
  - intros Hnone visit1 visit2 w userPrompt.
    set (refined :=
           Prompt.RefinedPrompt
             (Prompt.Evaluate visit1 (evaluator o) userPrompt)).
    assert (Hsel : autoSelection o visit2 refined = []).
    { rewrite autoSelection_cases, MatchKeywords_no_agents, Hnone
        by exact Hnone. reflexivity. }
    assert (Hchain : executeChain o w refined (autoSelection o visit2 refined)
                       zeroContextState
                     = ((emptyReport, [], None), w, [])).
    { rewrite Hsel. reflexivity. }
    destruct (RunWithAuto_run o visit1 visit2 w w userPrompt _ _ _ _ Hchain)
      as (events & Heq & Hinv & _).
    eexists _, events. split; [exact Heq|]. split; [exact Hinv|].
    cbn. fold refined. rewrite Hsel. repeat split.
Qed.

End Selection.

Section Explicit.
Context {World : Type}.
Variable o : Orchestrator World.

Lemma resolved_names (names : list string) (found : list Agents.Agent) :
  registryOk (registry o) ->
  Forall2 (fun name agent => Agents.Get (registry o) name = Some agent)
    names found ->
  map Agents.Name found = names.
Proof.
  intros (_ & _ & Hstored) H.
  induction H as [|name agent names found Hget _ IH]; [reflexivity|].
  cbn [map]. rewrite IH. f_equal. now apply Hstored.
Qed.

(** X18.  An explicit run over a registry made by [NewRegistry] and [Add]
    keeps the prompt as it was given (the evaluation changes nothing) and
    reports the names as given; the agents it invokes are the named ones,
    in the order of the names and as often as they are named, up to the
    point where the run stopped; when no error is returned every name was
    invoked and has its outcome in the report. *)
Theorem RunWithExplicitChain_invokes_named
  (visit : list (string * list string)) (w w1 : World) (userPrompt : string)
  (names : list string) (state : ContextState) (err : option Error)
  (events : list Event) :
  registryOk (registry o) ->
  RunWithExplicitChain o visit w userPrompt names
  = ((state, err), w1, events) ->
  (OriginalPrompt state = userPrompt /\ RefinedPrompt state = userPrompt
   /\ SelectedAgents state = names)
  /\ (exists k, invokedAgents events = take k names)
  /\ (err = None ->
      invokedAgents events = names
      /\ length (AgentResults state) = length names).
Proof.
  intros Hok Hrun.
  pose proof (resolveAgents_spec o names []) as Hres.
  unfold RunWithExplicitChain in Hrun.
  destruct (resolveAgents (registry o) names []) as [name|agents] eqn:Hresolve.
  - injection Hrun as <- <- <- <-. split; [repeat split|].
    split; [|discriminate]. exists 0%nat. now rewrite take_0.
  - destruct Hres as (found & -> & Hfound). cbn [app] in *.
    pose proof (resolved_names names found Hok Hfound) as Hnames.
    destruct (executeChain o w userPrompt found zeroContextState)
      as [[[[out results] err'] w2] written] eqn:Hchain.
    unfold executeChain in Hchain.
    apply chainLoop_shape in Hchain
      as ((more & Hmore & Hlen & Hfull & Hinvoked) & _ & _ & _ & _).
    cbn [app invokedAgents omap list_omap] in Hmore, Hinvoked. subst results.
    rewrite <- firstn_map, Hnames in Hinvoked.
    assert (Hstate : (OriginalPrompt state = userPrompt
                      /\ RefinedPrompt state = userPrompt
                      /\ SelectedAgents state = names)
                     /\ err = err' /\ events = written
                     /\ (err = None -> AgentResults state = more)).
    { destruct err'; injection Hrun as <- <- <- <-; cbn;
        repeat split; first [discriminate | reflexivity]. }
    destruct Hstate as (Hfields & -> & -> & Hresults).
    split; [exact Hfields|]. split; [now exists (length more)|].
    intros ->.
    assert (Hl : length found = length names)
      by (rewrite <- Hnames; now rewrite length_map).
    rewrite (Hresults eq_refl), Hinvoked, (Hfull eq_refl), Hl.
    split; [apply take_ge; lia | reflexivity].
Qed.

End Explicit.

Section PromptPrefix.
Context {World : Type}.
Variable o : Orchestrator World.
Variable basePrompt : string.

Lemma HasPrefix_append_l (a b : string) :
  forall q, HasPrefix q (a +:+ b) = true -> HasPrefix q a = true.
Proof.
  induction a as [|c a IH]; intros q H; [reflexivity|].
  rewrite append_cons in H. cbn [HasPrefix] in *.
  destruct q as [|d q]; [discriminate|].
  apply andb_true_iff in H as [-> H]. exact (IH q H).
Qed.

Lemma buildAgentPrompt_prefix (agent : Agents.Agent) (ctx : ContextState) :
  HasPrefix (buildAgentPrompt basePrompt agent ctx)
    (basePrompt +:+ identityPreamble agent) = true.
Proof.
  unfold buildAgentPrompt, identityPreamble.
  set (a := basePrompt +:+ _).
  destruct (0 <? length (AgentResults ctx))%nat.
  - rewrite !append_assoc. apply EvaluatorFacts.HasPrefix_refl_append.
  - rewrite <- (append_empty_r a) at 1.
    apply EvaluatorFacts.HasPrefix_refl_append.
Qed.

Lemma chainLoop_prompts_prefixed (agents : list Agents.Agent) :
  forall results ctx w events out results' err w1 events',
    chainLoop o basePrompt agents results ctx w events
    = ((out, results', err), w1, events') ->
    exists qs,
      prompts events' = prompts events ++ qs
      /\ Forall2 (fun agent q =>
                    HasPrefix q (basePrompt +:+ identityPreamble agent) = true)
           (take (length qs) agents) qs.
Proof.
  induction agents as [|a rest IH];
    intros results ctx w events out results' err w1 events' Hrun.
  - cbn [chainLoop] in Hrun. injection Hrun as <- <- <- <- <-.
    exists []. rewrite app_nil_r. split; [reflexivity | constructor].
  - destruct (done (invoker o) w) as [cause|] eqn:Hdone.
    + rewrite (chainLoop_cancelled _ _ _ _ _ _ _ _ _ Hdone) in Hrun.
      injection Hrun as <- <- <- <- <-.
      exists []. rewrite app_nil_r. split; [reflexivity | constructor].
    + destruct (invokeAgent (invoker o) w (Agents.Name a)
                  (buildAgentPrompt basePrompt a ctx))
        as [[[r e] w2] written] eqn:Hinv.
      rewrite (chainLoop_step _ _ _ _ _ _ _ _ _ _ _ _ Hdone Hinv) in Hrun.
      apply IH in Hrun as (qs & Hprompts & Hall).
      exists (buildAgentPrompt basePrompt a ctx :: qs). split.
      * rewrite Hprompts. unfold prompts.
        rewrite !omap_app, omap_Logged by reflexivity.
        destruct e; cbn; rewrite !app_nil_r, <- app_assoc; reflexivity.
      * cbn [length take].
        constructor; [apply buildAgentPrompt_prefix | exact Hall].
Qed.

(** X19.  Whatever the invoker answers and whatever context the chain
    starts from, the prompt handed to the invoker at step [k] is for the
    agent at position [k] and begins with the base prompt followed by the
    identity preamble of this agent: the base prompt is never rewritten
    on the way. *)
Theorem executeChain_prompts_start_with_base (agents : list Agents.Agent)
  (ctx : ContextState) (w w1 : World) (out : string)
  (results : list Cli.InvocationResult) (err : option Error)
  (events : list Event) :
  executeChain o w basePrompt agents ctx = ((out, results, err), w1, events) ->
  forall k q,
    prompts events !! k = Some q ->
    exists agent,
      agents !! k = Some agent
      /\ HasPrefix q (basePrompt +:+ identityPreamble agent) = true
      /\ HasPrefix q basePrompt = true.
Proof.
  intros Hrun k q Hq. unfold executeChain in Hrun.
  apply chainLoop_prompts_prefixed in Hrun as (qs & Hprompts & Hall).
  cbn [prompts omap list_omap app] in Hprompts. rewrite Hprompts in Hq.
  destruct (Forall2_lookup_r _ _ _ _ _ Hall Hq) as (agent & Hagent & Hpre).
  apply lookup_take_Some in Hagent as [Hagent _].
  exists agent. split; [exact Hagent|]. split; [exact Hpre|].
  exact (HasPrefix_append_l _ _ _ Hpre).
Qed.

End PromptPrefix.

Lemma successCount_filter (results : list Cli.InvocationResult) :
  forall n,
    foldl (fun n r => if Cli.Success r then S n else n) n results
    = (n + length (List.filter Cli.Success results))%nat.
Proof.
  induction results as [|r results IH]; intros n; cbn [foldl List.filter];
    [cbn; lia|].
  rewrite IH. destruct (Cli.Success r); cbn [length]; lia.
Qed.

(** X20.  The report [synthesizeOutput] writes does not depend on the
    context it is given; it ends with the number of outcomes and the
    number of successful outcomes, and the second number never exceeds
    the first and equals it exactly when every outcome is a success. *)
Theorem synthesizeOutput_summary (ctx : ContextState)
  (results : list Cli.InvocationResult) :
  synthesizeOutput ctx results
  = ("=== Agent Chain Results ===" +:+ nl +:+ nl)
    +:+ resultBlocks 0 results
    +:+ (nl +:+ "=== Summary ===" +:+ nl)
    +:+ summaryLines (length results)
          (length (List.filter Cli.Success results))
  /\ (successCount results <= length results)%nat
  /\ (successCount results = length results
      <-> Forall (fun r => Cli.Success r = true) results).
Proof.
  assert (Hcount : successCount results
                   = length (List.filter Cli.Success results))
    by apply (successCount_filter results 0).
  split; [|split].
  - unfold synthesizeOutput, summaryLines. rewrite Hcount.
    now rewrite !append_assoc.
  - rewrite Hcount. apply filter_length_le.
  - rewrite Hcount. clear Hcount.
    induction results as [|r results IH]; cbn [List.filter length].
    + split; [constructor | reflexivity].
    + pose proof (filter_length_le Cli.Success results) as Hle.
      destruct (Cli.Success r) eqn:E; cbn [length].
      * rewrite Forall_cons. split.
        -- intros H. split; [exact E|]. apply IH. lia.
        -- intros [_ H]. f_equal. now apply IH.
      * split; [lia|]. intros H. apply Forall_inv in H. congruence.
Qed.

Section CliChain.
Context `{R : Cli.Runtime World}.
Variable i : Cli.Invoker.

Lemma cli_chainLoop_named (r0 : Agents.Registry) (basePrompt : string)
  (agents : list Agents.Agent) :
  forall results ctx w events out results' err w1 events',
    chainLoop (NewOrchestrator r0 i) basePrompt agents results ctx w events
    = ((out, results', err), w1, events') ->
    exists more,
      results' = results ++ more
      /\ map Cli.Agent more = take (length more) (map Agents.Name agents).
Proof.
  induction agents as [|a rest IH];
    intros results ctx w events out results' err w1 events' Hrun.
  - cbn [chainLoop] in Hrun. injection Hrun as <- <- <- <- <-.
    exists []. now rewrite app_nil_r.
  - destruct (done (invoker (NewOrchestrator r0 i)) w) as [cause|] eqn:Hdone.
    + rewrite (chainLoop_cancelled _ _ _ _ _ _ _ _ _ Hdone) in Hrun.
      injection Hrun as <- <- <- <- <-. exists []. now rewrite app_nil_r.
    + destruct (InvokeAgent_shape i w (Agents.Name a)
                  (buildAgentPrompt basePrompt a ctx))
        as (r & entry & w2 & Heq & _ & _ & Hname).
      rewrite (chainLoop_step (NewOrchestrator r0 i) basePrompt a rest results
                 ctx w w2 events r None [entry] Hdone Heq) in Hrun.
      apply IH in Hrun as (more & -> & Hnames).
      exists (r :: more). rewrite <- app_assoc. split; [reflexivity|].
      cbn [map length take recorded]. now rewrite Hname, Hnames.
Qed.

(** X21.  In a chain run with the CLI invoker every outcome carries the
    name of the agent it is the outcome of: the names of the outcomes are
    the names of the agents invoked, in order, and when no error is
    returned they are the names of all the agents of the chain. *)
Theorem cli_chain_outcomes_named (r0 : Agents.Registry) (basePrompt : string)
  (agents : list Agents.Agent) (ctx : ContextState) (w w1 : World)
  (out : string) (results : list Cli.InvocationResult) (err : option Error)
  (events : list Event) :
  executeChain (NewOrchestrator r0 i) w basePrompt agents ctx
  = ((out, results, err), w1, events) ->
  map Cli.Agent results = take (length results) (map Agents.Name agents)
  /\ map Cli.Agent results = invokedAgents events
  /\ (err = None -> map Cli.Agent results = map Agents.Name agents).
Proof.
  intros Hrun. unfold executeChain in Hrun.
  pose proof Hrun as Hshape.
  apply cli_chainLoop_named in Hrun as (more & Hmore & Hnames).
  apply chainLoop_shape in Hshape
    as ((more' & Hmore' & _ & Hfull & Hinvoked) & _ & _ & _ & _).
  cbn [app invokedAgents omap list_omap] in *. subst more' results.
  split; [exact Hnames|]. split.
  - now rewrite Hinvoked, Hnames, firstn_map.
  - intros ->. rewrite Hnames, (Hfull eq_refl), take_ge; [reflexivity|].
    now rewrite length_map.
Qed.

End CliChain.

Import Examples.

Lemma RunWithAuto_selects_witness :
  let run :=
    RunWithAuto flakyO Prompt.domainKeywords Prompt.domainKeywords 0%nat
      "Review the code and add unit tests" in
  (length (SelectedAgents run.1.1.1) <= 3)%nat
  /\ (run.1.1.2 = None -> invokedAgents run.2 = SelectedAgents run.1.1.1).
Proof.
  intros run. subst run.
  destruct (RunWithAuto flakyO Prompt.domainKeywords Prompt.domainKeywords
              0%nat "Review the code and add unit tests")
    as [[[state err] w1] events] eqn:E.
  destruct (RunWithAuto_selects flakyO Prompt.domainKeywords
              Prompt.domainKeywords 0%nat w1
              "Review the code and add unit tests" state err events E)
    as (_ & _ & H3 & _ & H5).
  cbn [fst snd]. split; [exact H3|]. intros H. now apply H5.
Defined.

Lemma RunWithAuto_blank_prompt_witness :
  let run :=
    RunWithAuto flakyO Prompt.domainKeywords Prompt.domainKeywords 0%nat
      "   " in
  SelectedAgents run.1.1.1
  = map Agents.Name (take 3 (Agents.All (registry flakyO))).
Proof.
  intros run. subst run.
  destruct (RunWithAuto flakyO Prompt.domainKeywords Prompt.domainKeywords
              0%nat "   ") as [[[state err] w1] events] eqn:E.
  destruct (RunWithAuto_blank_prompt flakyO Prompt.domainKeywords
              Prompt.domainKeywords 0%nat w1 "   " state err events
              eq_refl eq_refl)
    as (_ & _ & H & _); [unfold Prompt.range_order; reflexivity | exact E |].
  exact H.
Defined.

Lemma RunWithExplicitChain_invokes_named_witness :
  let run :=
    RunWithExplicitChain cancelO Prompt.domainKeywords 0%nat "Review code"
      ["test-generator"; "code-reviewer"] in
  SelectedAgents run.1.1.1 = ["test-generator"; "code-reviewer"]
  /\ exists k,
       invokedAgents run.2 = take k ["test-generator"; "code-reviewer"].
Proof.
  intros run. subst run.
  destruct (RunWithExplicitChain cancelO Prompt.domainKeywords 0%nat
              "Review code" ["test-generator"; "code-reviewer"])
    as [[[state err] w1] events] eqn:E.
  destruct (RunWithExplicitChain_invokes_named cancelO Prompt.domainKeywords
              0%nat w1 "Review code" ["test-generator"; "code-reviewer"]
              state err events)
    as ((_ & _ & H1) & H2 & _);
    [apply AgentsFacts.registered_ok | exact E |].
  split; [exact H1 | exact H2].
Defined.

Lemma executeChain_prompts_start_with_base_witness :
  let run :=
    executeChain flakyO 0%nat "Review code" [reviewer; tester]
      zeroContextState in
  Forall (fun q => HasPrefix q "Review code" = true) (prompts run.2).
Proof.
  intros run. subst run.
  destruct (executeChain flakyO 0%nat "Review code" [reviewer; tester]
              zeroContextState) as [[[[out results] err] w1] events] eqn:E.
  cbn [snd]. apply Forall_lookup_2. intros k q Hq.
  destruct (executeChain_prompts_start_with_base flakyO "Review code"
              [reviewer; tester] zeroContextState 0%nat w1 out results err
              events E k q Hq) as (agent & _ & _ & H).
  exact H.
Defined.

Lemma cli_chain_outcomes_named_witness :
  let run :=
    executeChain cliO 0%nat "Review code" [reviewer; tester]
      zeroContextState in
  map Cli.Agent run.1.1.1.2 = invokedAgents run.2.
Proof.
  intros run. subst run.
  destruct (executeChain cliO 0%nat "Review code" [reviewer; tester]
              zeroContextState) as [[[[out results] err] w1] events] eqn:E.
  cbn [fst snd].
  apply (@cli_chain_outcomes_named nat firstRunFails (Cli.NewInvoker 300)
           testRegistry "Review code" [reviewer; tester] zeroContextState
           0%nat w1 out results err events E).
Defined.

End RunFacts.

(* ===================================================================== *)
(** * Facts about the CLI invoker *)
(* ===================================================================== *)

Module CliFacts.
Import GoStrings GoStringsFacts.

Section Calls.
Context `{R : Cli.Runtime World}.
Variable i : Cli.Invoker.

(** X22.  [InvokeAgent] reports a success exactly when the command ran
    without error and printed something; the output is present exactly
    when something was printed, also after a failed run.  A run without
    error that printed nothing is reported as a failure whose error text
    is empty.  The exit code is that of an exit error and 0 for every
    other failure, and the name, the duration and the time stamp are
    those of the call. *)
Theorem InvokeAgent_success_iff (w w' : World) (name prompt : string)
  (run : Cli.CmdRun) :
  Cli.runCopilot w ["--agent=" +:+ name; "--prompt=" +:+ prompt] = (run, w') ->
  let call := Cli.InvokeAgent i w name prompt in
  let result := call.1.1.1 in
  call.1.2 = w'
  /\ (Cli.Success result = true
      <-> Cli.runErr run = None /\ Cli.stdout run <> EmptyString)
  /\ (Cli.Output result <> None <-> Cli.stdout run <> EmptyString)
  /\ (Cli.runErr run = None -> Cli.Error result = EmptyString)
  /\ (Cli.ExitCode result <> 0%Z ->
      exists text,
        Cli.runErr run = Some (Cli.ExitError (Cli.ExitCode result) text))
  /\ Cli.Agent result = name
  /\ Cli.Duration result = Cli.elapsed run
  /\ Cli.Timestamp result = Cli.started run.
Proof.
  intros Hrun call result. subst result call. unfold Cli.InvokeAgent.
  rewrite Hrun.
  destruct (String.eqb (Cli.stdout run) EmptyString) eqn:Hout;
    [apply String.eqb_eq in Hout | apply String.eqb_neq in Hout];
    cbn [negb];
    destruct (Cli.runErr run) as [[code text|text]|];
    try destruct (Cli.jsonRaw (Cli.stdout run));
    cbn; repeat split; try congruence; try discriminate;
    try tauto; try (intros [? ?]; congruence); eauto.
Qed.


(** X23.  [ListAgents] never returns a Go error and runs the command
    that [InvokeAgent] runs for the agent orchestrator with the listing
    prompt, with the same exit code, duration and time stamp; whenever
    that invocation is a success the listing is one too.  A successful
    listing has an output (the raw text, empty or not), no error text and
    exit code 0; a failed one has no output. *)
Theorem ListAgents_and_InvokeAgent (w : World) :
  let listed := Cli.ListAgents i w in
  let invoked :=
    Cli.InvokeAgent i w "orchestrator"
      "List all available agents and their descriptions" in
  listed.1.2 = None
  /\ listed.2 = invoked.1.2
  /\ Cli.Agent listed.1.1 = "orchestrator"
  /\ Cli.ExitCode listed.1.1 = Cli.ExitCode invoked.1.1.1
  /\ Cli.Duration listed.1.1 = Cli.Duration invoked.1.1.1
  /\ Cli.Timestamp listed.1.1 = Cli.Timestamp invoked.1.1.1
  /\ (Cli.Success invoked.1.1.1 = true -> Cli.Success listed.1.1 = true)
  /\ (if Cli.Success listed.1.1
      then Cli.Output listed.1.1 <> None
           /\ Cli.Error listed.1.1 = EmptyString
           /\ Cli.ExitCode listed.1.1 = 0%Z
      else Cli.Output listed.1.1 = None).
Proof.
  intros listed invoked. subst listed invoked.
  unfold Cli.ListAgents, Cli.InvokeAgent.
  change ("--agent=" +:+ "orchestrator") with "--agent=orchestrator".
  change ("--prompt=" +:+ "List all available agents and their descriptions")
    with "--prompt=List all available agents and their descriptions".
  destruct (Cli.runCopilot w _) as [run w'].
  destruct (Cli.runErr run) as [[code text|text]|];
    destruct (negb (String.eqb (Cli.stdout run) EmptyString));
    try destruct (Cli.jsonRaw (Cli.stdout run));
    cbn; repeat split; congruence.
Qed.

Lemma Contains_nonempty (s sub : string) :
  sub <> EmptyString -> Contains s sub = true -> s <> EmptyString.
Proof.
  intros Hsub H ->. destruct sub; [congruence|]. discriminate.
Qed.

(** X24.  [CheckAuth] answers true exactly when the status command ran
    without error and printed something, whatever it printed: the test
    for the word authenticated never decides. *)
Theorem CheckAuth_any_output (w w' : World) (run : Cli.CmdRun) :
  Cli.runCopilot w ["auth"; "status"] = (run, w') ->
  Cli.CheckAuth i w
  = (match Cli.runErr run with
     | None => negb (String.eqb (Cli.stdout run) EmptyString)
     | Some _ => false
     end, w').
Proof.
  intros Hrun. unfold Cli.CheckAuth. rewrite Hrun.
  destruct (Cli.runErr run); [reflexivity|]. f_equal.
  destruct (Contains (Cli.stdout run) "authenticated") eqn:E; [|reflexivity].
  apply Contains_nonempty in E; [|discriminate].
  apply String.eqb_neq in E. now rewrite E.
Qed.

End Calls.

Import Examples.

Lemma InvokeAgent_success_iff_witness :
  let result :=
    (@Cli.InvokeAgent unit silentRuntime (Cli.NewInvoker 300) tt
       "code-reviewer" "Review code").1.1.1 in
  Cli.Success result = false /\ Cli.Error result = EmptyString.
Proof.
  intros result.
  destruct (@InvokeAgent_success_iff unit silentRuntime (Cli.NewInvoker 300)
              tt tt "code-reviewer" "Review code"
              (Cli.mkCmdRun 0 1 None EmptyString EmptyString false) eq_refl)
    as (_ & Hsuccess & _ & Herror & _).
  fold result in Hsuccess, Herror. split; [|now apply Herror].
  destruct (Cli.Success result); [|reflexivity].
  destruct Hsuccess as [H _]. destruct (H eq_refl) as [_ Hout]. now elim Hout.
Defined.

Lemma CheckAuth_any_output_witness :
  Contains "42" "authenticated" = false
  /\ (@Cli.CheckAuth nat firstRunFails (Cli.NewInvoker 300) 1%nat).1 = true.
Proof.
  split; [reflexivity|].
  now rewrite (@CheckAuth_any_output nat firstRunFails (Cli.NewInvoker 300)
                 1%nat 2%nat
                 (Cli.mkCmdRun 0 1 None "42" EmptyString false) eq_refl).
Defined.

End CliFacts.

(* ===================================================================== *)
(** * Facts about the configuration *)
(* ===================================================================== *)

Module ConfigFacts.
Import Config.

Lemma ParseBool_false (str : string) :
  ParseBool str = Some false
  <-> str ∈ ["0"; "f"; "F"; "FALSE"; "false"; "False"].
Proof.
  unfold ParseBool. rewrite !elem_of_cons, elem_of_nil.
  destruct (existsb (String.eqb str) ["1"; "t"; "T"; "TRUE"; "true"; "True"])
    eqn:Et.
  - split; [discriminate|]. apply existsb_exists in Et as (x & Hx & Heq).
    apply String.eqb_eq in Heq. subst x. cbn in Hx.
    intros H. decompose [or] H; decompose [or] Hx;
      first [contradiction | congruence].
  - destruct (existsb (String.eqb str)
                ["0"; "f"; "F"; "FALSE"; "false"; "False"]) eqn:Ef.
    + split; [|reflexivity]. intros _.
      apply existsb_exists in Ef as (x & Hx & Heq).
      apply String.eqb_eq in Heq. subst x. cbn in Hx. intuition congruence.
    + split; [discriminate|]. intros H.
      assert (Hex : existsb (String.eqb str)
                      ["0"; "f"; "F"; "FALSE"; "false"; "False"] = true).
      { apply existsb_exists. exists str. split; [|apply String.eqb_refl].
        cbn. intuition congruence. }
      congruence.
Qed.

(** X30.  [LoadFromEnv] never fails: the repository root and the log
    level are never empty, and are the defaults when their variables are
    unset or empty; caching is off exactly when CACHE_ENABLED is one of
    the six spellings of false that [strconv.ParseBool] accepts; and the
    timeout differs from the default of 300 seconds only when the
    variable is set and parses to it. *)
Theorem LoadFromEnv_defaults (Getenv : string -> string)
  (ParseDuration : string -> option Z) :
  let cfg := LoadFromEnv Getenv ParseDuration in
  (RepoRoot cfg <> EmptyString /\ LogLevel cfg <> EmptyString)
  /\ (Getenv "REPO_ROOT" = EmptyString -> RepoRoot cfg = ".")
  /\ (Getenv "LOG_LEVEL" = EmptyString -> LogLevel cfg = "info")
  /\ (CacheEnabled cfg = false
      <-> Getenv "CACHE_ENABLED" ∈ ["0"; "f"; "F"; "FALSE"; "false"; "False"])
  /\ (CLITimeout cfg <> (300 * Second)%Z ->
      Getenv "COPILOT_CLI_TIMEOUT" <> EmptyString
      /\ ParseDuration (Getenv "COPILOT_CLI_TIMEOUT") = Some (CLITimeout cfg)).
Proof.
  intros cfg. subst cfg. unfold LoadFromEnv, getEnv, getEnvBool, getEnvDuration.
  cbn [RepoRoot LogLevel CacheEnabled CLITimeout].
  split; [split|split; [|split; [|split]]].
  - destruct (String.eqb (Getenv "REPO_ROOT") EmptyString) eqn:E;
      cbn [negb]; [discriminate | now apply String.eqb_neq].
  - destruct (String.eqb (Getenv "LOG_LEVEL") EmptyString) eqn:E;
      cbn [negb]; [discriminate | now apply String.eqb_neq].
  - intros ->. reflexivity.
  - intros ->. reflexivity.
  - rewrite <- ParseBool_false.
    destruct (String.eqb (Getenv "CACHE_ENABLED") EmptyString) eqn:E.
    + apply String.eqb_eq in E. rewrite E. split; discriminate.
    + destruct (ParseBool (Getenv "CACHE_ENABLED")) as [[]|];
        split; congruence.
  - destruct (String.eqb (Getenv "COPILOT_CLI_TIMEOUT") EmptyString) eqn:E;
      [congruence|]. apply String.eqb_neq in E.
    destruct (ParseDuration (Getenv "COPILOT_CLI_TIMEOUT")); [|congruence].
    intros _. split; [exact E | reflexivity].
Qed.

End ConfigFacts.

(* ===================================================================== *)
(** * Facts about the discovery of agent files *)
(* ===================================================================== *)

Module DiscoveryFacts.
Import GoStrings Regexp Agents Discovery DiscoverySpec GoStringsFacts RankSpec.

(** ** The frontmatter pattern *)

Lemma HasPrefix_split (p : string) :
  forall s, HasPrefix s p = true -> s = p +:+ dropBytes (len p) s.
Proof.
  induction p as [|a p IH]; intros s H; [reflexivity|].
  destruct s as [|b s]; [discriminate|]. cbn [HasPrefix] in H.
  apply andb_true_iff in H as [Hab H]. apply Ascii.eqb_eq in Hab. subst b.
  rewrite append_cons. cbn [len String.length dropBytes]. f_equal.
  apply (IH s H).
Qed.

Lemma HasPrefix_append_long (p : string) :
  forall x y, (len p <= len x)%nat -> HasPrefix (x +:+ y) p = HasPrefix x p.
Proof.
  induction p as [|a p IH]; intros x y Hlen; [reflexivity|].
  destruct x as [|b x]; [cbn in Hlen; lia|].
  rewrite append_cons. cbn [HasPrefix]. f_equal. apply IH.
  cbn [len String.length] in *. unfold len. lia.
Qed.

Lemma untilClosing_sound (s : string) :
  forall group,
    untilClosing s = Some group ->
    (exists rest, s = group +:+ closing +:+ rest)
    /\ Contains (group +:+ String newline "--") closing = false.
Proof.
  induction s as [|c s IH]; intros group.
  - cbn. discriminate.
  - cbn [untilClosing]. destruct (HasPrefix (String c s) closing) eqn:Hp.
    + intros [= <-]. split; [|reflexivity].
      exists (dropBytes (len closing) (String c s)).
      rewrite append_nil. now apply HasPrefix_split.
    + destruct (untilClosing s) as [t|]; [|discriminate]. intros [= <-].
      destruct (IH t eq_refl) as [[rest ->] Hnot]. split.
      * exists rest. now rewrite append_cons.
      * rewrite append_cons. cbn [Contains]. rewrite Hnot, orb_false_r.
        assert (Heq : HasPrefix (String c t +:+ String newline "--") closing
                      = HasPrefix
                          ((String c t +:+ String newline "--")
                           +:+ ("-" +:+ rest)) closing).
        { symmetry. apply HasPrefix_append_long.
          rewrite len_append. cbn. lia. }
        rewrite append_assoc in Heq.
        change (String newline "--" +:+ "-" +:+ rest)
          with (closing +:+ rest) in Heq.
        rewrite append_cons in Heq. now rewrite Heq.
Qed.


Lemma untilClosing_complete (body rest : string) :
  is_Some (untilClosing (body +:+ closing +:+ rest)).
Proof.
  induction body as [|c body IH].
  - rewrite append_nil. change (closing +:+ rest) with
      (String newline (String "-" (String "-" (String "-" rest)))).
    cbn. rewrite !Ascii.eqb_refl. cbn. eauto.
  - rewrite append_cons. cbn [untilClosing].
    destruct (HasPrefix _ closing); [eauto|].
    destruct IH as [t ->]. cbn. eauto.
Qed.

(** The lazy group is the text up to the first closing delimiter. *)
Lemma untilClosing_exact (body rest : string) :
  Contains (body +:+ String newline "--") closing = false ->
  untilClosing (body +:+ closing +:+ rest) = Some body.
Proof.
  induction body as [|c body IH]; intros Hnot.
  - rewrite append_nil. change (closing +:+ rest) with
      (String newline (String "-" (String "-" (String "-" rest)))).
    cbn. rewrite !Ascii.eqb_refl. reflexivity.
  - rewrite append_cons in Hnot. cbn [Contains] in Hnot.
    apply orb_false_iff in Hnot as [Hhead Htail].
    rewrite append_cons. cbn [untilClosing].
    assert (Heq : HasPrefix (String c (body +:+ closing +:+ rest)) closing
                  = false).
    { rewrite <- Hhead.
      change (String c (body +:+ closing +:+ rest))
        with (String c body +:+ (String newline "--" +:+ "-" +:+ rest)).
      rewrite <- append_assoc. rewrite <- append_cons.
      apply HasPrefix_append_long. rewrite len_append. cbn. lia. }
    rewrite Heq, (IH Htail). reflexivity.
Qed.

Lemma afterOpening_sound (s : string) :
  forall group,
    afterOpening s = Some group ->
    exists spaces rest,
      allReSpace spaces = true
      /\ s = spaces +:+ br +:+ rest
      /\ untilClosing rest = Some group.
Proof.
  induction s as [|c s IH]; intros group; cbn [afterOpening]; [discriminate|].
  destruct (isReSpace c) eqn:Hc; [|discriminate].
  destruct (afterOpening s) as [g|].
  - intros [= <-]. destruct (IH g eq_refl) as (spaces & rest & Hs & -> & Hg).
    exists (String c spaces), rest. cbn [allReSpace]. rewrite Hc, Hs.
    repeat split. exact Hg.
  - destruct (Ascii.eqb c newline) eqn:E; [|discriminate].
    apply Ascii.eqb_eq in E. subst c. intros Hg.
    exists EmptyString, s. repeat split. exact Hg.
Qed.

Lemma afterOpening_complete (spaces rest : string) :
  allReSpace spaces = true -> is_Some (untilClosing rest) ->
  is_Some (afterOpening (spaces +:+ br +:+ rest)).
Proof.
  intros Hs Hrest. induction spaces as [|c spaces IH].
  - rewrite append_nil. change (br +:+ rest) with (String newline rest).
    cbn [afterOpening].
    change (isReSpace newline) with true. cbv iota.
    destruct (afterOpening rest); [eauto|]. now rewrite Ascii.eqb_refl.
  - cbn [allReSpace] in Hs. apply andb_true_iff in Hs as [Hc Hs].
    rewrite append_cons. cbn [afterOpening]. rewrite Hc.
    destruct (IH Hs) as [g ->]. eauto.
Qed.

(** X25.  [extractFrontmatter] returns a text exactly for the contents
    that start with three dashes, white space, a line break, any text and
    a closing delimiter (a line break followed by three dashes).  The text
    it returns stands in the content between such an opening and a
    closing delimiter, and it ends where the first closing delimiter
    after the opening begins: the delimiter does not occur before. *)
Theorem extractFrontmatter_delimited (content : string) :
  (forall group,
      extractFrontmatter content = Some group ->
      (exists spaces rest,
          allReSpace spaces = true
          /\ content = "---" +:+ spaces +:+ br +:+ group +:+ closing +:+ rest)
      /\ Contains (group +:+ String newline "--") closing = false)
  /\ (forall spaces body rest,
         allReSpace spaces = true ->
         content = "---" +:+ spaces +:+ br +:+ body +:+ closing +:+ rest ->
         is_Some (extractFrontmatter content)).
Proof.
  unfold extractFrontmatter. split.
  - intros group. destruct (HasPrefix content "---") eqn:Hp; [|discriminate].
    intros H. apply afterOpening_sound in H as (spaces & tail & Hs & Heq & Hg).
    apply untilClosing_sound in Hg as [[rest ->] Hnot].
    split; [|exact Hnot]. exists spaces, rest. split; [exact Hs|].
    etransitivity; [apply (HasPrefix_split _ _ Hp)|].
    change (len "---") with 3%nat. now rewrite Heq.
  - intros spaces body rest Hs ->.
    change (HasPrefix ("---" +:+ spaces +:+ br +:+ body +:+ closing +:+ rest)
              "---") with true. cbv iota.
    change (dropBytes 3
              ("---" +:+ spaces +:+ br +:+ body +:+ closing +:+ rest))
      with (spaces +:+ br +:+ body +:+ closing +:+ rest).
    apply afterOpening_complete; [exact Hs | apply untilClosing_complete].
Qed.

Lemma afterOpening_word (s : string) :
  (exists c s', s = String c s' /\ isReSpace c = false) ->
  afterOpening s = None.
Proof. intros (c & s' & -> & Hc). cbn [afterOpening]. now rewrite Hc. Qed.

(** X26.  For a content made of the opening line, a body that starts
    with a byte that is not white space and has no closing delimiter in
    it, the closing delimiter and anything after it, [extractFrontmatter]
    returns the body, without the line break that ends it. *)
Theorem extractFrontmatter_round_trip (body rest : string) :
  (exists c body', body = String c body' /\ isReSpace c = false) ->
  Contains (body +:+ String newline "--") closing = false ->
  extractFrontmatter ("---" +:+ br +:+ body +:+ closing +:+ rest) = Some body.
Proof.
  intros Hword Hnot. unfold extractFrontmatter.
  change (HasPrefix ("---" +:+ br +:+ body +:+ closing +:+ rest) "---")
    with true. cbv iota.
  change (dropBytes 3 ("---" +:+ br +:+ body +:+ closing +:+ rest))
    with (String newline (body +:+ closing +:+ rest)).
  cbn [afterOpening]. change (isReSpace newline) with true. cbv iota.
  rewrite afterOpening_word.
  - rewrite Ascii.eqb_refl. now apply untilClosing_exact.
  - destruct Hword as (c & body' & -> & Hc). rewrite append_cons. eauto.
Qed.

Lemma extractFrontmatter_round_trip_witness :
  extractFrontmatter
    ("---" +:+ br +:+ "name: test" +:+ closing +:+ (br +:+ "Content"))
  = Some "name: test".
Proof.
  apply (extractFrontmatter_round_trip "name: test" (br +:+ "Content"));
    [exists "n"%char, "ame: test"; split; reflexivity | reflexivity].
Defined.


(** ** The parser *)










(** ** A file written for an agent is parsed back to it *)

Lemma hasByte_append (b : ascii) (x y : string) :
  hasByte b (x +:+ y) = hasByte b x || hasByte b y.
Proof.
  induction x as [|c x IH]; [reflexivity|].
  rewrite append_cons. cbn [hasByte]. now rewrite IH, orb_assoc.
Qed.

Lemma splitByte_line (sep : ascii) (x : string) :
  hasByte sep x = false -> splitByte sep x = [x].
Proof.
  induction x as [|c x IH]; [reflexivity|]. cbn [hasByte splitByte].
  intros H. apply orb_false_iff in H as [-> H]. now rewrite (IH H).
Qed.

Lemma splitByte_append (sep : ascii) (x y : string) :
  hasByte sep x = false ->
  splitByte sep (x +:+ String sep y) = x :: splitByte sep y.
Proof.
  induction x as [|c x IH].
  - intros _. rewrite append_nil. cbn [splitByte].
    now rewrite Ascii.eqb_refl.
  - cbn [hasByte]. intros H. apply orb_false_iff in H as [Hc H].
    rewrite append_cons. cbn [splitByte]. now rewrite Hc, (IH H).
Qed.

Lemma plainField_spec (s : string) :
  plainField s = true -> TrimSpace s = s /\ hasByte newline s = false.
Proof.
  unfold plainField. intros H. apply andb_true_iff in H as [H H2].
  apply andb_true_iff in H as [_ H1].
  apply String.eqb_eq in H1. apply negb_true_iff in H2. now split.
Qed.

Lemma trimmed_ends (s : string) :
  TrimSpace s = s -> trimLeft s = s /\ trimRight s = s.
Proof.
  intros H. destruct s as [|c t]; [split; reflexivity|].
  pose proof (TrimSpace_head _ _ _ H) as Hc.
  assert (Hl : trimLeft (String c t) = String c t) by now apply trimLeft_fixed.
  split; [exact Hl|]. unfold TrimSpace in H. now rewrite Hl in H.
Qed.

Lemma trimRight_append_blank (a b : string) :
  trimRight b = EmptyString -> trimRight (a +:+ b) = trimRight a.
Proof.
  intros Hb. induction a as [|x a IH]; [now rewrite append_nil|].
  rewrite append_cons. cbn [trimRight]. now rewrite IH.
Qed.

Lemma dropBytes_append (x y : string) : dropBytes (len x) (x +:+ y) = y.
Proof. induction x as [|c x IH]; [now destruct y|]. exact IH. Qed.

Lemma takeBytes_append (x y : string) : takeBytes (len x) (x +:+ y) = x.
Proof.
  induction x as [|c x IH]; [now destruct y|].
  rewrite append_cons. cbn [len String.length takeBytes]. f_equal. exact IH.
Qed.

Lemma TrimPrefix_append (key x : string) : TrimPrefix (key +:+ x) key = x.
Proof.
  unfold TrimPrefix.
  now rewrite EvaluatorFacts.HasPrefix_refl_append, dropBytes_append.
Qed.

Lemma HasSuffix_append (x s : string) : HasSuffix (x +:+ s) s = true.
Proof.
  induction x as [|c x IH].
  - rewrite append_nil. destruct s; cbn [HasSuffix];
      now rewrite String.eqb_refl.
  - rewrite append_cons. cbn [HasSuffix]. rewrite IH. apply orb_true_r.
Qed.

Lemma TrimSuffix_append (x s : string) : TrimSuffix (x +:+ s) s = x.
Proof.
  unfold TrimSuffix. rewrite HasSuffix_append, len_append.
  replace (len x + len s - len s)%nat with (len x) by lia.
  apply takeBytes_append.
Qed.

(** A line [key value], the key ending in a colon, gives the value back. *)
Lemma field_line (k : ascii) (key value : string) :
  isSpace k = false -> trimRight (String k key) = String k key ->
  TrimSpace value = value ->
  let line := TrimSpace (String k key +:+ " " +:+ value) in
  HasPrefix line (String k key) = true
  /\ TrimSpace (TrimPrefix line (String k key)) = value.
Proof.
  intros Hk Hkey Hvalue line. subst line.
  destruct (trimmed_ends value Hvalue) as [Hl Hr].
  assert (Hline :
            TrimSpace (String k key +:+ " " +:+ value)
            = String k key
              +:+ (if String.eqb value EmptyString then EmptyString
                   else " " +:+ value)).
  { unfold TrimSpace. rewrite append_cons, trimLeft_fixed by exact Hk.
    rewrite <- append_cons.
    destruct value as [|v value'].
    - cbn [String.eqb].
      rewrite trimRight_append_blank by reflexivity.
      now rewrite Hkey, append_empty_r.
    - cbn [String.eqb]. rewrite <- append_assoc.
      rewrite trimRight_append by (rewrite Hr; discriminate).
      now rewrite Hr, append_assoc. }
  rewrite Hline. split; [apply EvaluatorFacts.HasPrefix_refl_append|].
  rewrite TrimPrefix_append.
  destruct (String.eqb value EmptyString) eqn:E.
  - apply String.eqb_eq in E. now subst value.
  - change (" " +:+ value) with (String " " value).
    unfold TrimSpace. cbn [trimLeft]. change (isSpace " ") with true.
    cbv iota. exact Hvalue.
Qed.


Lemma plainKeyword_spec (kw : string) :
  plainKeyword kw = true ->
  kw <> EmptyString /\ TrimSpace kw = kw /\ hasByte newline kw = false
  /\ hasByte ","%char kw = false /\ Trim kw quotes = kw.
Proof.
  unfold plainKeyword. intros H.
  apply andb_true_iff in H as [H H4]. apply andb_true_iff in H as [H H3].
  apply andb_true_iff in H as [H1 H2].
  apply plainField_spec in H2 as [H2 H2'].
  apply negb_true_iff in H1, H3. apply String.eqb_neq in H1.
  apply String.eqb_eq in H4. repeat split; assumption.
Qed.

Lemma splitByte_Join (rest : list string) :
  forall k,
    Forall (fun kw => plainKeyword kw = true) (k :: rest) ->
    splitByte ","%char (Join (k :: rest) ", ") = k :: map (String " ") rest.
Proof.
  induction rest as [|k2 rest IH]; intros k Hall.
  - apply Forall_inv in Hall. apply plainKeyword_spec in Hall.
    cbn [Join map]. apply splitByte_line. tauto.
  - apply Forall_cons in Hall as [Hk Hall].
    apply plainKeyword_spec in Hk as (_ & _ & _ & Hk & _).
    change (Join (k :: k2 :: rest) ", ")
      with (k +:+ String ","%char (String " " (Join (k2 :: rest) ", "))).
    rewrite (splitByte_append _ _ _ Hk). cbn [splitByte].
    change (Ascii.eqb " " ",") with false. cbv iota.
    now rewrite (IH k2 Hall).
Qed.

Lemma hasByte_Join (kws : list string) :
  Forall (fun kw => plainKeyword kw = true) kws ->
  hasByte newline (Join kws ", ") = false.
Proof.
  induction kws as [|k [|k2 rest] IH]; intros Hall; [reflexivity| |].
  - apply Forall_inv in Hall. apply plainKeyword_spec in Hall. cbn [Join].
    tauto.
  - apply Forall_cons in Hall as [Hk Hall].
    apply plainKeyword_spec in Hk as (_ & _ & Hk & _).
    change (Join (k :: k2 :: rest) ", ")
      with (k +:+ ", " +:+ Join (k2 :: rest) ", ").
    rewrite !hasByte_append, Hk, (IH Hall). reflexivity.
Qed.

Lemma keyword_part (keywords : list string) (kw : string) :
  plainKeyword kw = true ->
  (let kw := TrimSpace kw in
   let kw := Trim kw quotes in
   if negb (String.eqb kw EmptyString) then keywords ++ [kw] else keywords)
  = keywords ++ [kw]
  /\ (let kw := TrimSpace (String " " kw) in
      let kw := Trim kw quotes in
      if negb (String.eqb kw EmptyString) then keywords ++ [kw] else keywords)
     = keywords ++ [kw].
Proof.
  intros H. apply plainKeyword_spec in H as (Hne & Htrim & _ & _ & Hq).
  apply String.eqb_neq in Hne. cbv zeta.
  assert (Hsp : TrimSpace (String " " kw) = kw).
  { unfold TrimSpace. cbn [trimLeft]. change (isSpace " ") with true.
    cbv iota. exact Htrim. }
  rewrite Hsp, Htrim, Hq, Hne. split; reflexivity.
Qed.

Lemma keyword_parts (rest : list string) :
  Forall (fun kw => plainKeyword kw = true) rest ->
  forall acc,
    foldl (fun keywords part =>
             let kw := TrimSpace part in
             let kw := Trim kw quotes in
             if negb (String.eqb kw EmptyString) then keywords ++ [kw]
             else keywords)
          acc (map (String " ") rest)
    = acc ++ rest.
Proof.
  induction 1 as [|k rest Hk _ IH]; intros acc;
    [cbn; now rewrite app_nil_r|].
  cbn [map foldl].
  destruct (keyword_part acc k Hk) as [_ Hnext]. cbv zeta in Hnext.
  rewrite Hnext, IH, <- app_assoc. reflexivity.
Qed.

Lemma parseKeywords_Join (kws : list string) :
  Forall (fun kw => plainKeyword kw = true) kws ->
  parseKeywords ("[" +:+ Join kws ", " +:+ "]") [] = kws.
Proof.
  intros Hall. unfold parseKeywords.
  rewrite EvaluatorFacts.HasPrefix_refl_append.
  rewrite TrimPrefix_append, <- append_assoc, HasSuffix_append.
  rewrite TrimSuffix_append.
  cbn [andb]. cbv zeta.
  destruct kws as [|k rest]; [reflexivity|].
  rewrite (splitByte_Join rest k Hall). cbn [foldl].
  apply Forall_cons in Hall as [Hk Hall].
  destruct (keyword_part [] k Hk) as [Hfirst _]. cbv zeta in Hfirst.
  rewrite Hfirst. cbn [app]. now rewrite (keyword_parts rest Hall).
Qed.


Lemma plainAgent_spec (a : Agent) :
  plainAgent a = true ->
  Name a <> EmptyString
  /\ (TrimSpace (Name a) = Name a /\ hasByte newline (Name a) = false)
  /\ (TrimSpace (Description a) = Description a
      /\ hasByte newline (Description a) = false)
  /\ Forall (fun kw => plainKeyword kw = true) (Keywords a).
Proof.
  unfold plainAgent. intros H.
  apply andb_true_iff in H as [H H4]. apply andb_true_iff in H as [H H3].
  apply andb_true_iff in H as [H1 H2].
  apply negb_true_iff, String.eqb_neq in H1.
  apply plainField_spec in H2, H3.
  repeat split; try tauto.
  apply Forall_forall. intros kw Hkw.
  rewrite forallb_forall in H4. now apply H4, list_elem_of_In.
Qed.

Lemma HasPrefix_other_head (s p q : string) (a b : ascii) :
  HasPrefix s (String a p) = true -> Ascii.eqb b a = false ->
  HasPrefix s (String b q) = false.
Proof.
  destruct s as [|c s]; [discriminate|]. cbn [HasPrefix].
  intros H Hab. apply andb_true_iff in H as [H _].
  apply Ascii.eqb_eq in H. subst c. now rewrite Hab.
Qed.

(** The three lines of the frontmatter written for an agent. *)
Lemma frontmatterOf_lines (a : Agent) :
  plainAgent a = true ->
  frontmatterOf a
  = ("name: " +:+ Name a)
    +:+ String newline
          (("description: " +:+ Description a)
           +:+ String newline ("keywords: [" +:+ Join (Keywords a) ", " +:+ "]"))
  /\ splitByte newline (frontmatterOf a)
     = ["name: " +:+ Name a; "description: " +:+ Description a;
        "keywords: [" +:+ Join (Keywords a) ", " +:+ "]"].
Proof.
  intros Hplain.
  destruct (plainAgent_spec a Hplain) as (_ & [_ Hn] & [_ Hd] & Hk).
  assert (Heq : frontmatterOf a
                = ("name: " +:+ Name a)
                  +:+ String newline
                        (("description: " +:+ Description a)
                         +:+ String newline
                               ("keywords: [" +:+ Join (Keywords a) ", "
                                +:+ "]"))).
  { unfold frontmatterOf, br. rewrite !append_assoc. reflexivity. }
  split; [exact Heq|]. rewrite Heq.
  rewrite splitByte_append by (rewrite hasByte_append, Hn; reflexivity).
  rewrite splitByte_append by (rewrite hasByte_append, Hd; reflexivity).
  rewrite splitByte_line; [reflexivity|].
  rewrite !hasByte_append, (hasByte_Join _ Hk). reflexivity.
Qed.

Lemma bracketed_trimmed (inner : string) :
  TrimSpace ("[" +:+ inner +:+ "]") = "[" +:+ inner +:+ "]".
Proof.
  unfold TrimSpace. rewrite append_cons, trimLeft_fixed by reflexivity.
  rewrite <- append_cons, <- append_assoc.
  now rewrite trimRight_append by discriminate.
Qed.

Lemma parseFrontmatter_frontmatterOf (a : Agent) :
  plainAgent a = true -> parseFrontmatter (frontmatterOf a) = a.
Proof.
  intros Hplain.
  destruct (frontmatterOf_lines a Hplain) as [_ Hlines].
  destruct (plainAgent_spec a Hplain) as (_ & [Hn _] & [Hd _] & Hk).
  unfold parseFrontmatter. cbv zeta. rewrite Hlines. cbn [foldl].
  destruct a as [name description keywords].
  cbn [Name Description Keywords] in *.
  (* the name line *)
  change ("name: " +:+ name) with (String "n" "ame:" +:+ " " +:+ name).
  destruct (field_line "n" "ame:" name eq_refl eq_refl Hn) as [Hp1 Hv1].
  cbv zeta in Hp1, Hv1.
  unfold parseLine at 3. cbv zeta. rewrite Hp1, Hv1.
  cbn [Name Description Keywords].
  (* the description line *)
  change ("description: " +:+ description)
    with (String "d" "escription:" +:+ " " +:+ description).
  destruct (field_line "d" "escription:" description eq_refl eq_refl Hd)
    as [Hp2 Hv2].
  cbv zeta in Hp2, Hv2.
  unfold parseLine at 2. cbv zeta.
  rewrite (HasPrefix_other_head _ _ "ame:" _ "n" Hp2 eq_refl), Hp2, Hv2.
  cbn [Name Description Keywords].
  (* the keywords line *)
  change ("keywords: [" +:+ Join keywords ", " +:+ "]")
    with (String "k" "eywords:" +:+ " " +:+ ("[" +:+ Join keywords ", " +:+ "]")).
  destruct (field_line "k" "eywords:" ("[" +:+ Join keywords ", " +:+ "]")
              eq_refl eq_refl (bracketed_trimmed _)) as [Hp3 Hv3].
  cbv zeta in Hp3, Hv3.
  unfold parseLine. cbv zeta.
  rewrite (HasPrefix_other_head _ _ "ame:" _ "n" Hp3 eq_refl).
  rewrite (HasPrefix_other_head _ _ "escription:" _ "d" Hp3 eq_refl).
  rewrite Hp3, Hv3. cbn [Name Description Keywords].
  now rewrite (parseKeywords_Join keywords Hk).
Qed.


Lemma untilClosing_skip_line (line rest : string) :
  hasByte newline line = false ->
  untilClosing (line +:+ rest)
  = option_map (String.append line) (untilClosing rest).
Proof.
  induction line as [|c line IH]; intros H.
  - rewrite append_nil. now destruct (untilClosing rest).
  - cbn [hasByte] in H. apply orb_false_iff in H as [Hc H].
    rewrite append_cons. cbn [untilClosing HasPrefix closing].
    rewrite Ascii.eqb_sym, Hc. cbn [andb]. rewrite (IH H).
    now destruct (untilClosing rest).
Qed.

Lemma untilClosing_skip_break (c : ascii) (rest : string) :
  Ascii.eqb "-" c = false ->
  untilClosing (String newline (String c rest))
  = option_map (String newline) (untilClosing (String c rest)).
Proof.
  intros Hc. cbn [untilClosing HasPrefix closing].
  rewrite Ascii.eqb_refl, Hc. reflexivity.
Qed.

Lemma untilClosing_closing (rest : string) :
  untilClosing (closing +:+ rest) = Some EmptyString.
Proof.
  change (closing +:+ rest)
    with (String newline (String "-" (String "-" (String "-" rest)))).
  cbn [untilClosing HasPrefix closing]. now rewrite !Ascii.eqb_refl.
Qed.

Lemma untilClosing_three_lines (l1 l2 l3 : string) (c2 c3 : ascii)
  (rest : string) :
  hasByte newline l1 = false ->
  hasByte newline (String c2 l2) = false ->
  hasByte newline (String c3 l3) = false ->
  Ascii.eqb "-" c2 = false -> Ascii.eqb "-" c3 = false ->
  untilClosing
    (l1 +:+ String newline
              (String c2 l2
               +:+ String newline (String c3 l3 +:+ closing +:+ rest)))
  = Some (l1 +:+ String newline
                   (String c2 l2 +:+ String newline (String c3 l3))).
Proof.
  intros H1 H2 H3 Hc2 Hc3.
  rewrite (untilClosing_skip_line l1 _ H1).
  rewrite (append_cons c2), (untilClosing_skip_break c2 _ Hc2).
  rewrite <- (append_cons c2), (untilClosing_skip_line _ _ H2).
  rewrite (append_cons c3), (untilClosing_skip_break c3 _ Hc3).
  rewrite <- (append_cons c3), (untilClosing_skip_line _ _ H3).
  rewrite untilClosing_closing. cbn [option_map].
  now rewrite append_empty_r.
Qed.

Lemma untilClosing_frontmatterOf (a : Agent) (body : string) :
  plainAgent a = true ->
  untilClosing (frontmatterOf a +:+ closing +:+ body)
  = Some (frontmatterOf a).
Proof.
  intros Hplain.
  destruct (frontmatterOf_lines a Hplain) as [Heq _].
  destruct (plainAgent_spec a Hplain) as (_ & [_ Hn] & [_ Hd] & Hk).
  rewrite Heq.
  set (l1 := "name: " +:+ Name a).
  change ("description: " +:+ Description a)
    with (String "d" ("escription: " +:+ Description a)).
  change ("keywords: [" +:+ Join (Keywords a) ", " +:+ "]")
    with (String "k" ("eywords: [" +:+ Join (Keywords a) ", " +:+ "]")).
  set (l2 := "escription: " +:+ Description a).
  set (l3 := "eywords: [" +:+ Join (Keywords a) ", " +:+ "]").
  rewrite (append_assoc l1), (append_cons newline).
  rewrite (append_assoc (String "d" l2)), (append_cons newline).
  apply untilClosing_three_lines; try reflexivity.
  - subst l1. now rewrite hasByte_append, Hn.
  - subst l2. cbn [hasByte]. now rewrite hasByte_append, Hd.
  - subst l3. cbn [hasByte]. now rewrite !hasByte_append, (hasByte_Join _ Hk).
Qed.

(** X28.  A file written for an agent is parsed back to the agent: from
    the file that holds, between the delimiters, the name, the description
    and the array of keywords of an agent whose fields are plain (ASCII,
    one line, no white space around them, keywords not empty, without
    comma and without a quote at either end), followed by any text,
    [parseAgentFile] returns this agent. *)
Theorem parseAgentFile_round_trip (a : Agent) (body : string) :
  plainAgent a = true ->
  extractFrontmatter (agentFile a body) = Some (frontmatterOf a)
  /\ parseAgentFile (Some (agentFile a body)) = inl a.
Proof.
  intros Hplain.
  assert (Hex : extractFrontmatter (agentFile a body)
                = Some (frontmatterOf a)).
  { unfold extractFrontmatter, agentFile.
    change (HasPrefix ("---" +:+ br +:+ frontmatterOf a +:+ closing +:+ body)
              "---") with true. cbv iota.
    change (dropBytes 3
              ("---" +:+ br +:+ frontmatterOf a +:+ closing +:+ body))
      with (String newline (frontmatterOf a +:+ closing +:+ body)).
    cbn [afterOpening]. change (isReSpace newline) with true. cbv iota.
    rewrite afterOpening_word.
    - rewrite Ascii.eqb_refl. now apply untilClosing_frontmatterOf.
    - exists "n"%char. eexists. split; [|reflexivity].
      unfold frontmatterOf. now rewrite !append_cons. }
  split; [exact Hex|]. unfold parseAgentFile. rewrite Hex.
  assert (Hne : String.eqb (frontmatterOf a) EmptyString = false)
    by (unfold frontmatterOf; now rewrite append_cons).
  rewrite Hne. cbv zeta.
  rewrite (parseFrontmatter_frontmatterOf a Hplain).
  destruct (plainAgent_spec a Hplain) as (Hname & _).
  apply String.eqb_neq in Hname. now rewrite Hname.
Qed.


(** ** The discovery *)

Lemma Add_rejected (r : Registry) (a : Agent) (err : AddError) :
  (Add r a).2 = Some err -> (Add r a).1 = r.
Proof.
  unfold Add. destruct (String.eqb (Name a) EmptyString); [reflexivity|].
  destruct (agents r !! Name a); [reflexivity | discriminate].
Qed.

Lemma discoverEntry_skips (state : Registry * nat * list LogLine)
  (entry : DirEntry) :
  isAgentFile entry = false -> discoverEntry state entry = state.
Proof.
  unfold isAgentFile, discoverEntry. destruct state as [[r n] log].
  now intros ->.
Qed.

Lemma discoverEntry_step (r : Registry) (n : nat) (log : list LogLine)
  (entry : DirEntry) :
  registryOk r ->
  exists r' added line,
    (discoverEntry (r, n, log) entry = (r', (n + added)%nat, log ++ line))
    /\ registryOk r'
    /\ added = length (List.filter isDiscovered line)
    /\ length (All r') = (length (All r) + added)%nat
    /\ (forall name agent, Get r name = Some agent ->
                           Get r' name = Some agent).
Proof.
  intros Hok. unfold discoverEntry.
  destruct (negb (IsDir entry) && HasSuffix (entryName entry) ".md").
  2:{ exists r, 0%nat, []. rewrite Nat.add_0_r, app_nil_r.
      split; [reflexivity|]. split; [exact Hok|].
      split; [reflexivity|]. split; [cbn; lia | auto]. }
  destruct (parseAgentFile (read entry)) as [agent|err].
  2:{ exists r, 0%nat, [WarnParseFailed (entryName entry) err].
      rewrite Nat.add_0_r. split; [reflexivity|]. split; [exact Hok|].
      split; [reflexivity|]. split; [cbn; lia | auto]. }
  destruct (Add r agent) as [r' [err|]] eqn:Hadd.
  - pose proof (Add_rejected r agent err) as Hsame.
    rewrite Hadd in Hsame. cbn [fst snd] in Hsame. rewrite (Hsame eq_refl).
    exists r, 0%nat, [WarnAddFailed (Name agent) err].
    rewrite Nat.add_0_r. split; [reflexivity|]. split; [exact Hok|].
      split; [reflexivity|]. split; [cbn; lia | auto].
  - exists r', 1%nat, [DebugDiscovered (Name agent)].
    rewrite Nat.add_1_r.
    pose proof (RegistryFacts.Add_appends r agent Hok) as Happ.
    pose proof (AgentsFacts.Add_ok r agent Hok) as Hok'.
    pose proof (RegistryFacts.Add_keeps r agent) as Hkeep.
    rewrite Hadd in Happ, Hok', Hkeep. cbn [fst snd] in *.
    split; [reflexivity|]. split; [exact Hok'|]. split; [reflexivity|].
    split.
    + rewrite (Happ eq_refl), length_app. reflexivity.
    + intros name agent' Hget. now rewrite Hkeep, Hget.
Qed.

Lemma foldl_discoverEntry (entries : list DirEntry) :
  forall r n log,
    registryOk r ->
    exists r' added lines,
      foldl discoverEntry (r, n, log) entries
      = (r', (n + added)%nat, log ++ lines)
      /\ registryOk r'
      /\ added = length (List.filter isDiscovered lines)
      /\ length (All r') = (length (All r) + added)%nat
      /\ (forall name agent, Get r name = Some agent ->
                             Get r' name = Some agent).
Proof.
  induction entries as [|entry entries IH]; intros r n log Hok.
  - exists r, 0%nat, []. rewrite Nat.add_0_r, app_nil_r.
    split; [reflexivity|]. split; [exact Hok|].
      split; [reflexivity|]. split; [cbn; lia | auto].
  - cbn [foldl].
    destruct (discoverEntry_step r n log entry Hok)
      as (r1 & added1 & line & -> & Hok1 & Hadded1 & Hlen1 & Hget1).
    destruct (IH r1 (n + added1)%nat (log ++ line) Hok1)
      as (r2 & added2 & lines & -> & Hok2 & Hadded2 & Hlen2 & Hget2).
    exists r2, (added1 + added2)%nat, (line ++ lines).
    rewrite Nat.add_assoc, app_assoc. split; [reflexivity|].
    split; [exact Hok2|]. split; [|split].
    + rewrite List.filter_app, length_app. lia.
    + lia.
    + intros name agent Hget. now apply Hget2, Hget1.
Qed.

Lemma foldl_discoverEntry_filter (entries : list DirEntry) :
  forall state,
    foldl discoverEntry state (List.filter isAgentFile entries)
    = foldl discoverEntry state entries.
Proof.
  induction entries as [|entry entries IH]; intros state; [reflexivity|].
  cbn [List.filter foldl]. destruct (isAgentFile entry) eqn:E.
  - cbn [foldl]. apply IH.
  - rewrite (discoverEntry_skips state entry E). apply IH.
Qed.

(** X29.  On a directory it can list, [Discover] returns no error and
    keeps the registry well formed; the count of the final log entry is
    the number of agents it logged as discovered and the number of agents
    by which the list of [All] grew; an agent registered before stays;
    and directories and files whose name does not end in .md change
    nothing. *)
Theorem Discover_counts (registry : Registry) (entries : list DirEntry) :
  registryOk registry ->
  let result := Discover registry (Listing entries) in
  result.1.2 = false
  /\ registryOk result.1.1
  /\ (exists count,
         last result.2 = Some (InfoComplete count)
         /\ count = length (List.filter isDiscovered result.2)
         /\ length (All result.1.1) = (length (All registry) + count)%nat)
  /\ (forall name agent,
         Get registry name = Some agent -> Get result.1.1 name = Some agent)
  /\ Discover registry (Listing (List.filter isAgentFile entries)) = result.
Proof.
  intros Hok result. subst result. unfold Discover.
  rewrite foldl_discoverEntry_filter.
  destruct (foldl_discoverEntry entries registry 0%nat [] Hok)
    as (r' & added & lines & -> & Hok' & Hadded & Hlen & Hget).
  cbn [fst snd app]. rewrite Nat.add_0_l.
  split; [reflexivity|]. split; [exact Hok'|]. split; [|split].
  - exists added. split; [apply last_snoc|]. split; [|exact Hlen].
    rewrite List.filter_app, length_app. cbn. lia.
  - exact Hget.
  - reflexivity.
Qed.


Import Examples.


Lemma parseAgentFile_round_trip_witness :
  parseAgentFile (Some (agentFile reviewer "# Instructions")) = inl reviewer.
Proof.
  apply (parseAgentFile_round_trip reviewer "# Instructions").
  vm_compute. reflexivity.
Defined.

Lemma Discover_counts_witness :
  let result := Discover NewRegistry (Listing testDirectory) in
  exists count,
    last result.2 = Some (InfoComplete count)
    /\ length (All result.1.1) = (0 + count)%nat.
Proof.
  intros result.
  destruct (Discover_counts NewRegistry testDirectory
              AgentsFacts.NewRegistry_ok)
    as (_ & _ & (count & H1 & _ & H3) & _).
  exists count. split; [exact H1 | exact H3].
Defined.

End DiscoveryFacts.
